(** * PycubedMEKF: the multiplicative extended Kalman filter of [src/mekf.py]

    The filter is embedded over the real numbers of the Standard Library:
    a float of the source is a real, [math.sin], [math.cos] and the square
    root of [linalg.norm] are the real functions, and rounding is left out.
    What a float computation does where the real one is undefined is kept,
    as an outcome of the run:
    - a division by zero does not raise on an array, it fills the array with
      nan or inf, which then spread to the returned state: [NonFinite];
    - [linalg.inv] of a singular matrix raises: [LinAlgError].

    Arrays keep the shapes the source gives them: 3-, 4- and 6-arrays,
    3x3 and 4x4 matrices, and 6x6 matrices kept as the four 3x3 blocks from
    which [block] assembles them. *)

From Stdlib Require Import Reals Lra Lia RNsatz.
From Stdlib Require Import ClassicalDescription IndefiniteDescription.

Local Open Scope R_scope.

(** ** Outcomes of a run *)

Inductive error : Type :=
| NonFinite
| LinAlgError.

Inductive outcome (A : Type) : Type :=
| Ret (a : A)
| Fail (e : error).

Arguments Ret {A} a.
Arguments Fail {A} e.

Definition bind {A B : Type} (m : outcome A) (k : A -> outcome B) : outcome B :=
  match m with
  | Ret a => k a
  | Fail e => Fail e
  end.

Notation "x <- m ;; k" := (bind m (fun x => k))
  (at level 61, m at next level, right associativity).

(** ** Arrays ([numpy] / [ulab.numpy]) *)

Module LinAlg.

Record Vec3 : Type := mkVec3 { vx : R; vy : R; vz : R }.

Record Vec4 : Type := mkVec4 { q0 : R; q1 : R; q2 : R; q3 : R }.

(** A 6-array is the concatenation of two 3-arrays; [top] is the slice
    [[0:3]] and [bot] the slice [[3:]]. *)
Record Vec6 : Type := concat { top : Vec3; bot : Vec3 }.

Record Mat3 : Type := mkMat3 {
  m00 : R; m01 : R; m02 : R;
  m10 : R; m11 : R; m12 : R;
  m20 : R; m21 : R; m22 : R }.

Record Mat4 : Type := mkMat4 { r0 : Vec4; r1 : Vec4; r2 : Vec4; r3 : Vec4 }.

(** [block [[ul, ur], [ll, lr]]] *)
Record Mat6 : Type := mkMat6 { ul : Mat3; ur : Mat3; ll : Mat3; lr : Mat3 }.

(** *** 3-arrays *)

Definition vadd3 (a b : Vec3) : Vec3 :=
  mkVec3 (vx a + vx b) (vy a + vy b) (vz a + vz b).

Definition vsub3 (a b : Vec3) : Vec3 :=
  mkVec3 (vx a - vx b) (vy a - vy b) (vz a - vz b).

Definition vneg3 (a : Vec3) : Vec3 := mkVec3 (- vx a) (- vy a) (- vz a).

Definition vscale3 (a : Vec3) (s : R) : Vec3 :=
  mkVec3 (vx a * s) (vy a * s) (vz a * s).

Definition vzeros3 : Vec3 := mkVec3 0 0 0.

Definition dot3 (a b : Vec3) : R := vx a * vx b + vy a * vy b + vz a * vz b.

Definition cross3 (a b : Vec3) : Vec3 :=
  mkVec3 (vy a * vz b - vz a * vy b)
         (vz a * vx b - vx a * vz b)
         (vx a * vy b - vy a * vx b).

(** [linalg.norm] of a 3-array *)
Definition norm3 (a : Vec3) : R := sqrt (dot3 a a).

(** [a / s] for an array [a] and a scalar [s]: where [s] is zero the
    entries of the result are nan or inf. *)
Definition vdiv3 (a : Vec3) (s : R) : outcome Vec3 :=
  if Req_dec_T s 0 then Fail NonFinite
  else Ret (mkVec3 (vx a / s) (vy a / s) (vz a / s)).

(** *** 4-arrays *)

(** [concat([[c], v])] *)
Definition concat1 (c : R) (v : Vec3) : Vec4 := mkVec4 c (vx v) (vy v) (vz v).

Definition dot4 (a b : Vec4) : R :=
  q0 a * q0 b + q1 a * q1 b + q2 a * q2 b + q3 a * q3 b.

Definition norm4 (a : Vec4) : R := sqrt (dot4 a a).

Definition vdiv4 (a : Vec4) (s : R) : outcome Vec4 :=
  if Req_dec_T s 0 then Fail NonFinite
  else Ret (mkVec4 (q0 a / s) (q1 a / s) (q2 a / s) (q3 a / s)).

Definition matvec4 (M : Mat4) (v : Vec4) : Vec4 :=
  mkVec4 (dot4 (r0 M) v) (dot4 (r1 M) v) (dot4 (r2 M) v) (dot4 (r3 M) v).

(** *** 6-arrays *)

Definition vadd6 (a b : Vec6) : Vec6 :=
  concat (vadd3 (top a) (top b)) (vadd3 (bot a) (bot b)).

Definition vsub6 (a b : Vec6) : Vec6 :=
  concat (vsub3 (top a) (top b)) (vsub3 (bot a) (bot b)).

Definition vzeros6 : Vec6 := concat vzeros3 vzeros3.

(** *** 3x3 matrices *)

Definition row3 (M : Mat3) (i : nat) : Vec3 :=
  match i with
  | O => mkVec3 (m00 M) (m01 M) (m02 M)
  | S O => mkVec3 (m10 M) (m11 M) (m12 M)
  | _ => mkVec3 (m20 M) (m21 M) (m22 M)
  end.

Definition col3 (M : Mat3) (j : nat) : Vec3 :=
  match j with
  | O => mkVec3 (m00 M) (m10 M) (m20 M)
  | S O => mkVec3 (m01 M) (m11 M) (m21 M)
  | _ => mkVec3 (m02 M) (m12 M) (m22 M)
  end.

Definition coord3 (v : Vec3) (i : nat) : R :=
  match i with
  | O => vx v
  | S O => vy v
  | _ => vz v
  end.

Definition entry3 (M : Mat3) (i j : nat) : R := coord3 (row3 M i) j.

(** [I(3)] and [zeros((3, 3))] *)
Definition I3 : Mat3 := mkMat3 1 0 0  0 1 0  0 0 1.
Definition zeros3 : Mat3 := mkMat3 0 0 0  0 0 0  0 0 0.

Definition map2_3 (f : R -> R -> R) (A B : Mat3) : Mat3 :=
  mkMat3 (f (m00 A) (m00 B)) (f (m01 A) (m01 B)) (f (m02 A) (m02 B))
         (f (m10 A) (m10 B)) (f (m11 A) (m11 B)) (f (m12 A) (m12 B))
         (f (m20 A) (m20 B)) (f (m21 A) (m21 B)) (f (m22 A) (m22 B)).

Definition madd3 : Mat3 -> Mat3 -> Mat3 := map2_3 Rplus.
Definition msub3 : Mat3 -> Mat3 -> Mat3 := map2_3 Rminus.

(** [A * s] for a matrix [A] and a scalar [s] *)
Definition mscale3 (A : Mat3) (s : R) : Mat3 :=
  mkMat3 (m00 A * s) (m01 A * s) (m02 A * s)
         (m10 A * s) (m11 A * s) (m12 A * s)
         (m20 A * s) (m21 A * s) (m22 A * s).

Definition transpose3 (A : Mat3) : Mat3 :=
  mkMat3 (m00 A) (m10 A) (m20 A)
         (m01 A) (m11 A) (m21 A)
         (m02 A) (m12 A) (m22 A).

(** [matmul] of two 3x3 matrices: rows of [A] against columns of [B] *)
Definition matmul3 (A B : Mat3) : Mat3 :=
  mkMat3
    (dot3 (row3 A 0) (col3 B 0)) (dot3 (row3 A 0) (col3 B 1)) (dot3 (row3 A 0) (col3 B 2))
    (dot3 (row3 A 1) (col3 B 0)) (dot3 (row3 A 1) (col3 B 1)) (dot3 (row3 A 1) (col3 B 2))
    (dot3 (row3 A 2) (col3 B 0)) (dot3 (row3 A 2) (col3 B 1)) (dot3 (row3 A 2) (col3 B 2)).

(** [matmul] of a 3x3 matrix and a 3-array *)
Definition matvec3 (A : Mat3) (v : Vec3) : Vec3 :=
  mkVec3 (dot3 (row3 A 0) v) (dot3 (row3 A 1) v) (dot3 (row3 A 2) v).

(** *** 6x6 matrices, by blocks *)

(** [block([[A, B], [C, D]])] *)
Definition block (A B C D : Mat3) : Mat6 := mkMat6 A B C D.

Definition I6 : Mat6 := block I3 zeros3 zeros3 I3.
Definition zeros6 : Mat6 := block zeros3 zeros3 zeros3 zeros3.

Definition madd6 (A B : Mat6) : Mat6 :=
  block (madd3 (ul A) (ul B)) (madd3 (ur A) (ur B))
        (madd3 (ll A) (ll B)) (madd3 (lr A) (lr B)).

Definition msub6 (A B : Mat6) : Mat6 :=
  block (msub3 (ul A) (ul B)) (msub3 (ur A) (ur B))
        (msub3 (ll A) (ll B)) (msub3 (lr A) (lr B)).

Definition mscale6 (A : Mat6) (s : R) : Mat6 :=
  block (mscale3 (ul A) s) (mscale3 (ur A) s)
        (mscale3 (ll A) s) (mscale3 (lr A) s).

Definition transpose6 (A : Mat6) : Mat6 :=
  block (transpose3 (ul A)) (transpose3 (ll A))
        (transpose3 (ur A)) (transpose3 (lr A)).

(** [matmul] of two 6x6 matrices.  The six-term row by column sum is split
    at the block boundary; [entry6_matmul6] below states it entry by entry. *)
Definition matmul6 (A B : Mat6) : Mat6 :=
  block (madd3 (matmul3 (ul A) (ul B)) (matmul3 (ur A) (ll B)))
        (madd3 (matmul3 (ul A) (ur B)) (matmul3 (ur A) (lr B)))
        (madd3 (matmul3 (ll A) (ul B)) (matmul3 (lr A) (ll B)))
        (madd3 (matmul3 (ll A) (ur B)) (matmul3 (lr A) (lr B))).

(** [matmul] of a 6x6 matrix and a 6-array *)
Definition matvec6 (A : Mat6) (v : Vec6) : Vec6 :=
  concat (vadd3 (matvec3 (ul A) (top v)) (matvec3 (ur A) (bot v)))
         (vadd3 (matvec3 (ll A) (top v)) (matvec3 (lr A) (bot v))).

Definition entry6 (M : Mat6) (i j : nat) : R :=
  if (i <? 3)%nat
  then if (j <? 3)%nat then entry3 (ul M) i j else entry3 (ur M) i (j - 3)
  else if (j <? 3)%nat then entry3 (ll M) (i - 3) j else entry3 (lr M) (i - 3) (j - 3).

Definition coord6 (v : Vec6) (i : nat) : R :=
  if (i <? 3)%nat then coord3 (top v) i else coord3 (bot v) (i - 3).

Definition symmetric (A : Mat6) : Prop := transpose6 A = A.

(** [linalg.inv]: the inverse of an invertible matrix, an error raised on a
    singular one. *)
Definition is_inverse (S M : Mat6) : Prop :=
  matmul6 S M = I6 /\ matmul6 M S = I6.

Definition invertible (S : Mat6) : Prop := exists M, is_inverse S M.

Definition inv (S : Mat6) : outcome Mat6 :=
  match excluded_middle_informative (invertible S) with
  | left H => Ret (proj1_sig (constructive_indefinite_description _ H))
  | right _ => Fail LinAlgError
  end.

End LinAlg.

(** ** The helpers imported from [.mathutils] *)

Module MathUtils.
Import LinAlg.

(** Modelled from the spec: [hat] of [mathutils], which is not among the
    sources.  The spec gives it as the skew-symmetric operator mapping a
    3-vector to its 3x3 cross-product matrix. *)
Definition hat (v : Vec3) : Mat3 :=
  mkMat3 0        (- vz v) (vy v)
         (vz v)   0        (- vx v)
         (- vy v) (vx v)   0.

(** Modelled from the spec: [quaternion_mul] of [mathutils], which is not
    among the sources.  The spec gives it as the Hamilton product; the
    scalar part comes first, as in [[cos(θ/2), r·sin(θ/2)]]. *)
Definition quaternion_mul (a b : Vec4) : Vec4 :=
  mkVec4 (q0 a * q0 b - q1 a * q1 b - q2 a * q2 b - q3 a * q3 b)
         (q0 a * q1 b + q1 a * q0 b + q2 a * q3 b - q3 a * q2 b)
         (q0 a * q2 b - q1 a * q3 b + q2 a * q0 b + q3 a * q1 b)
         (q0 a * q3 b + q1 a * q2 b - q2 a * q1 b + q3 a * q0 b).

(** Modelled from the spec: [quaternion_to_left_matrix] of [mathutils],
    which is not among the sources.  The spec gives it as the
    left-multiplication matrix of a quaternion: the matrix whose product
    with [b] is the Hamilton product of [a] and [b]. *)
Definition quaternion_to_left_matrix (a : Vec4) : Mat4 :=
  mkMat4 (mkVec4 (q0 a) (- q1 a) (- q2 a) (- q3 a))
         (mkVec4 (q1 a) (q0 a)   (- q3 a) (q2 a))
         (mkVec4 (q2 a) (q3 a)   (q0 a)   (- q1 a))
         (mkVec4 (q3 a) (- q2 a) (q1 a)   (q0 a)).

(** Modelled from the spec: [quaternion_to_rotation_matrix] of [mathutils],
    which is not among the sources.  The spec gives it as the conversion of
    a unit quaternion to its 3x3 rotation matrix. *)
Definition quaternion_to_rotation_matrix (a : Vec4) : Mat3 :=
  let s := q0 a in let x := q1 a in let y := q2 a in let z := q3 a in
  mkMat3 (s * s + x * x - y * y - z * z) (2 * (x * y - s * z)) (2 * (x * z + s * y))
         (2 * (x * y + s * z)) (s * s - x * x + y * y - z * z) (2 * (y * z - s * x))
         (2 * (x * z - s * y)) (2 * (y * z + s * x)) (s * s - x * x - y * y + z * z).

End MathUtils.

(** ** [mekf.py] *)

Module Mekf.
Import LinAlg MathUtils.

(** The module-level names of lines 22 to 24.  Nothing assigns to them
    again; [step] has no parameter or local named [β], so that the [β] of
    its lines 69 and 101 is this one. *)
Definition q : Vec4 := mkVec4 0 0 0 0.
Definition β : Vec3 := mkVec3 0 0 0.
Definition P : Mat6 := I6.

(** [State = namedtuple('State', ['q', 'β', 'P'])] *)
Record State : Type := mkState { state_q : Vec4; state_β : Vec3; state_P : Mat6 }.

(** Lines 29 to 41. *)
Definition propagate_state (q : Vec4) (β ω : Vec3) (δt : R) : outcome Vec4 :=
  let θ := norm3 (vsub3 ω β) * δt in
  if Req_dec_T (norm3 (vsub3 ω β)) 0 then Ret q
  else
    r <- vdiv3 (vsub3 ω β) (norm3 (vsub3 ω β)) ;;
    Ret (quaternion_mul q (concat1 (cos (θ / 2)) (vscale3 r (sin (θ / 2))))).

(** Lines 61 and 62. *)
Definition W : Mat6 := mscale6 I6 1e-6.
Definition V : Mat6 := mscale6 I6 1e-6.

(** Lines 69 to 76: the state-transition matrix [A]. *)
Definition transition (ω : Vec3) (δt : R) : outcome Mat6 :=
  let v := vneg3 (vsub3 ω β) in
  let mag := norm3 v in
  u <- vdiv3 v mag ;;
  let v_hat := hat u in
  let R := madd3 (madd3 I3 (mscale3 v_hat (sin (mag * δt))))
                 (mscale3 (matmul3 v_hat v_hat) (1 - cos (mag * δt))) in
  Ret (block R                (mscale3 I3 (- δt))
             zeros3           I3).

(** Line 77: the propagated covariance [P_p]. *)
Definition propagate_covariance (P : Mat6) (ω : Vec3) (δt : R) : outcome Mat6 :=
  A <- transition ω δt ;;
  Ret (madd6 (matmul6 A (matmul6 P (transpose6 A))) W).

(** Lines 80 to 85: the innovation [Z]. *)
Definition innovation (q_p : Vec4) (nr_mag nr_sun br_mag br_sun : Vec3) : Vec6 :=
  let Q := transpose3 (quaternion_to_rotation_matrix q_p) in
  let body_measurements := concat br_mag br_sun in
  let inertial_measurements := concat nr_mag nr_sun in
  let inertial_to_body := block Q zeros3 zeros3 Q in
  vsub6 body_measurements (matvec6 inertial_to_body inertial_measurements).

(** Lines 86 and 87: the measurement sensitivity [C]. *)
Definition sensitivity (br_mag br_sun : Vec3) : Mat6 :=
  block (hat br_mag) zeros3
        (hat br_sun) zeros3.

(** Line 88: the innovation covariance [S]. *)
Definition innovation_covariance (P_p C : Mat6) : Mat6 :=
  madd6 (matmul6 C (matmul6 P_p (transpose6 C))) V.

(** Line 91: the Kalman gain [L]. *)
Definition kalman_gain (P_p C : Mat6) : outcome Mat6 :=
  S_inv <- inv (innovation_covariance P_p C) ;;
  Ret (matmul6 P_p (matmul6 (transpose6 C) S_inv)).

(** Lines 97 to 100 and 110: the attitude update and its normalization. *)
Definition update_attitude (q_p : Vec4) (ϕ : Vec3) : outcome Vec4 :=
  let θ := norm3 ϕ in
  r <- vdiv3 ϕ θ ;;
  let q_u := matvec4 (quaternion_to_left_matrix q_p)
                     (concat1 (cos (θ / 2)) (vscale3 r (sin (θ / 2)))) in
  vdiv4 q_u (norm4 q_u).

(** Lines 102 to 106: the covariance update. *)
Definition update_covariance (L C P_p : Mat6) : Mat6 :=
  let e1 := msub6 I6 (matmul6 L C) in
  let e2 := transpose6 (msub6 I6 (matmul6 L C)) in
  let e3 := matmul6 e1 (matmul6 P_p e2) in
  let e4 := matmul6 L (matmul6 V (transpose6 L)) in
  madd6 e3 e4.

(** Line 94: the correction [δx]. *)
Definition correction (L : Mat6) (Z : Vec6) : Vec6 := matvec6 L Z.

(** Lines 43 to 111. *)
Definition step (state : State) (ω : Vec3) (δt : R)
    (nr_mag nr_sun br_mag br_sun : Vec3) : outcome State :=
  (* Predict *)
  q_p <- propagate_state (state_q state) (state_β state) ω δt ;;
  P_p <- propagate_covariance (state_P state) ω δt ;;
  (* Innovation *)
  let Z := innovation q_p nr_mag nr_sun br_mag br_sun in
  let C := sensitivity br_mag br_sun in
  (* Kalman gain *)
  L <- kalman_gain P_p C ;;
  (* Update *)
  let δx := correction L Z in
  let ϕ := top δx in
  let δβ := bot δx in
  q_u <- update_attitude q_p ϕ ;;
  let β_u := vadd3 β δβ in
  let P_u := update_covariance L C P_p in
  Ret (mkState q_u β_u P_u).

End Mekf.

(** ** The formulas of the specification *)

Module Spec.
Import LinAlg MathUtils.

(** The rotation block as the specification words it: [v̂] is the hat
    matrix of [v] itself. *)
Definition rotation_block_of_hat (v : Vec3) (δt : R) : Mat3 :=
  madd3 (madd3 I3 (mscale3 (hat v) (sin (norm3 v * δt))))
        (mscale3 (matmul3 (hat v) (hat v)) (1 - cos (norm3 v * δt))).

(** The rotation block with [v̂] the hat matrix of the unit vector along
    [v] (Rodrigues' formula for the exponential of [hat v * δt]). *)
Definition rotation_block_of_unit_hat (v : Vec3) (δt : R) : Mat3 :=
  let u := mkVec3 (vx v / norm3 v) (vy v / norm3 v) (vz v / norm3 v) in
  madd3 (madd3 I3 (mscale3 (hat u) (sin (norm3 v * δt))))
        (mscale3 (matmul3 (hat u) (hat u)) (1 - cos (norm3 v * δt))).

(** [A = [[R, -δt·I₃], [0, I₃]]] *)
Definition transition_of (Rot : Mat3) (δt : R) : Mat6 :=
  block Rot (mscale3 I3 (- δt)) zeros3 I3.

(** [P_p = A·P·Aᵀ + W] *)
Definition propagated (A P W : Mat6) : Mat6 :=
  madd6 (matmul6 (matmul6 A P) (transpose6 A)) W.

(** [S = C·P_p·Cᵀ + V] *)
Definition innovation_cov (C P_p V : Mat6) : Mat6 :=
  madd6 (matmul6 (matmul6 C P_p) (transpose6 C)) V.


End Spec.

(** ** Concrete sensor cycles *)

Module Scenario.
Import LinAlg MathUtils Mekf.

Definition q_id : Vec4 := mkVec4 1 0 0 0.
Definition e_x : Vec3 := mkVec3 1 0 0.
Definition e_y : Vec3 := mkVec3 0 1 0.
Definition e_z : Vec3 := mkVec3 0 0 1.

(** A prior at the identity attitude with unit covariance and no bias. *)
Definition rest : State := mkState q_id vzeros3 I6.

(** The same prior with a bias of one along the third axis. *)
Definition biased : State := mkState q_id e_z I6.

(** A rate of two along the third axis. *)
Definition two_e_z : Vec3 := mkVec3 0 0 2.

(** A prior whose covariance is not positive semi-definite. *)
Definition indefinite : State := mkState q_id vzeros3 (mscale6 I6 (- 2e-6)).

(** The cycles [step biased e_z δt e_x e_z e_x e_y], stage by stage: the
    propagated covariance, the sensitivity, the inverse of the innovation
    covariance, the gain, the innovation and the posterior. *)
Definition P_p_of (a b g : R) : Mat6 :=
  block (mscale3 I3 a) (mscale3 I3 b)
        (mscale3 I3 b) (mscale3 I3 g).

Definition S_of (a w : R) : Mat6 :=
  block (mkMat3 w 0 0   0 (a + w) 0   0 0 (a + w))
        (mkMat3 0 0 0   (- a) 0 0   0 0 0)
        (mkMat3 0 (- a) 0   0 0 0   0 0 0)
        (mkMat3 (a + w) 0 0   0 w 0   0 0 (a + w)).

Definition S_inv_of (a w : R) : Mat6 :=
  let d := w * (2 * a + w) in
  block (mkMat3 (/ w) 0 0   0 ((a + w) / d) 0   0 0 (/ (a + w)))
        (mkMat3 0 0 0   (a / d) 0 0   0 0 0)
        (mkMat3 0 (a / d) 0   0 0 0   0 0 0)
        (mkMat3 ((a + w) / d) 0 0   0 (/ w) 0   0 0 (/ (a + w))).

Definition a0 (δt : R) : R := 1 + δt * δt + 1e-6.
Definition P_p0 (δt : R) : Mat6 := P_p_of (a0 δt) (- δt) (1 + 1e-6).
Definition C0 : Mat6 := sensitivity e_x e_y.
Definition S_inv0 (δt : R) : Mat6 := S_inv_of (a0 δt) 1e-6.
Definition L0 (δt : R) : Mat6 :=
  matmul6 (P_p0 δt) (matmul6 (transpose6 C0) (S_inv0 δt)).
Definition Z0 : Vec6 := innovation q_id e_x e_z e_x e_y.
Definition θ0 (δt : R) : R := a0 δt / (a0 δt + 1e-6).

Definition posterior (δt : R) : State :=
  mkState (mkVec4 (cos (θ0 δt / 2)) (sin (θ0 δt / 2)) 0 0)
          (vadd3 β (bot (correction (L0 δt) Z0)))
          (update_covariance (L0 δt) C0 (P_p0 δt)).

End Scenario.

(** ** The cycles of the biased prior for a sun reference of any length *)

Module SunScenario.
Import LinAlg MathUtils Mekf Scenario.

Definition sun (t : R) : Vec3 := mkVec3 0 0 t.

Definition Z_of (t : R) : Vec6 := innovation q_id e_x (sun t) e_x e_y.

Definition posterior_of (δt t : R) : State :=
  mkState (mkVec4 (cos (t * θ0 δt / 2)) (sin (t * θ0 δt / 2)) 0 0)
          (vadd3 β (bot (correction (L0 δt) (Z_of t))))
          (update_covariance (L0 δt) C0 (P_p0 δt)).

End SunScenario.

(** ** Quadratic forms and the inverse of a 3x3 matrix *)

Module Quadratic.
Import LinAlg.

Definition dot6 (a b : Vec6) : R := dot3 (top a) (top b) + dot3 (bot a) (bot b).

(** The quadratic form [xᵀ·A·x]. *)
Definition quad3 (A : Mat3) (x : Vec3) : R := dot3 x (matvec3 A x).
Definition quad6 (A : Mat6) (x : Vec6) : R := dot6 x (matvec6 A x).

(** Positive semi-definite, and positive definite with the margin [k]:
    [xᵀ·A·x >= k·‖x‖²]. *)
Definition psd (A : Mat6) : Prop := forall x : Vec6, 0 <= quad6 A x.
Definition margin3 (k : R) (A : Mat3) : Prop :=
  forall x : Vec3, k * dot3 x x <= quad3 A x.
Definition margin6 (k : R) (A : Mat6) : Prop :=
  forall x : Vec6, k * dot6 x x <= quad6 A x.

Definition det3 (A : Mat3) : R :=
  m00 A * (m11 A * m22 A - m12 A * m21 A)
  - m01 A * (m10 A * m22 A - m12 A * m20 A)
  + m02 A * (m10 A * m21 A - m11 A * m20 A).

(** The adjugate over the determinant. *)
Definition inverse3 (A : Mat3) : Mat3 :=
  mkMat3 ((m11 A * m22 A - m12 A * m21 A) / det3 A)
         ((m02 A * m21 A - m01 A * m22 A) / det3 A)
         ((m01 A * m12 A - m02 A * m11 A) / det3 A)
         ((m12 A * m20 A - m10 A * m22 A) / det3 A)
         ((m00 A * m22 A - m02 A * m20 A) / det3 A)
         ((m02 A * m10 A - m00 A * m12 A) / det3 A)
         ((m10 A * m21 A - m11 A * m20 A) / det3 A)
         ((m01 A * m20 A - m00 A * m21 A) / det3 A)
         ((m00 A * m11 A - m01 A * m10 A) / det3 A).

Definition mneg3 (A : Mat3) : Mat3 := msub3 zeros3 A.

End Quadratic.

(** ** Algebra of the arrays *)

Module LinAlgFacts.
Import LinAlg.

(** Call by value: an array is evaluated once, before its entries are
    read. *)
Ltac unfold_arrays :=
  cbv beta iota zeta delta
    [symmetric matvec6 matmul6 transpose6 mscale6 msub6 madd6
     zeros6 I6 block matvec3 matmul3 transpose3 mscale3 msub3 madd3
     map2_3 zeros3 I3 col3 row3 vsub6 vadd6 vzeros6 matvec4 dot4
     concat1 cross3 dot3 vzeros3 vscale3 vneg3 vsub3 vadd3
     ul ur ll lr m00 m01 m02 m10 m11 m12 m20 m21 m22 top bot vx vy vz
     q0 q1 q2 q3 r0 r1 r2 r3] in *.

Ltac destruct_arrays :=
  repeat match goal with
         | A : Mat6 |- _ => destruct A as [? ? ? ?]
         | A : Mat3 |- _ => destruct A as [? ? ? ? ? ? ? ? ?]
         | v : Vec6 |- _ => destruct v as [? ?]
         | v : Vec3 |- _ => destruct v as [? ? ?]
         | v : Vec4 |- _ => destruct v as [? ? ? ?]
         end.

Lemma mat3_ext (a b c d e f g h i a' b' c' d' e' f' g' h' i' : R) :
  a = a' -> b = b' -> c = c' -> d = d' -> e = e' -> f = f' ->
  g = g' -> h = h' -> i = i' ->
  mkMat3 a b c d e f g h i = mkMat3 a' b' c' d' e' f' g' h' i'.
Proof. intros; subst; reflexivity. Qed.

Lemma vec3_ext (a b c a' b' c' : R) :
  a = a' -> b = b' -> c = c' -> mkVec3 a b c = mkVec3 a' b' c'.
Proof. intros; subst; reflexivity. Qed.

Lemma vec4_ext (a b c d a' b' c' d' : R) :
  a = a' -> b = b' -> c = c' -> d = d' -> mkVec4 a b c d = mkVec4 a' b' c' d'.
Proof. intros; subst; reflexivity. Qed.

Lemma mat6_ext (A B C D A' B' C' D' : Mat3) :
  A = A' -> B = B' -> C = C' -> D = D' -> mkMat6 A B C D = mkMat6 A' B' C' D'.
Proof. intros; subst; reflexivity. Qed.

(** Equalities of 3-sized arrays that are polynomial identities entry by
    entry. *)
Ltac array_ring :=
  intros; destruct_arrays; unfold_arrays;
  first [ apply mat3_ext | apply vec3_ext | apply vec4_ext ]; ring.

(** *** 3x3 matrices *)

Lemma matmul3_assoc (A B C : Mat3) :
  matmul3 (matmul3 A B) C = matmul3 A (matmul3 B C).
Proof. array_ring. Qed.

Lemma transpose3_matmul3 (A B : Mat3) :
  transpose3 (matmul3 A B) = matmul3 (transpose3 B) (transpose3 A).
Proof. array_ring. Qed.

Lemma madd3_shuffle (A B C D : Mat3) :
  madd3 (madd3 A B) (madd3 C D) = madd3 (madd3 A C) (madd3 B D).
Proof. array_ring. Qed.

Lemma madd3_zeros3_l (A : Mat3) : madd3 zeros3 A = A.
Proof. array_ring. Qed.

Lemma madd3_zeros3_r (A : Mat3) : madd3 A zeros3 = A.
Proof. array_ring. Qed.

Lemma matmul3_zeros3_l (A : Mat3) : matmul3 zeros3 A = zeros3.
Proof. array_ring. Qed.

Lemma matmul3_zeros3_r (A : Mat3) : matmul3 A zeros3 = zeros3.
Proof. array_ring. Qed.

Lemma matmul3_I3_l (A : Mat3) : matmul3 I3 A = A.
Proof. array_ring. Qed.

Lemma matmul3_I3_r (A : Mat3) : matmul3 A I3 = A.
Proof. array_ring. Qed.

Lemma matmul3_madd3_l (A B C : Mat3) :
  matmul3 A (madd3 B C) = madd3 (matmul3 A B) (matmul3 A C).
Proof. array_ring. Qed.

Lemma matmul3_madd3_r (A B C : Mat3) :
  matmul3 (madd3 A B) C = madd3 (matmul3 A C) (matmul3 B C).
Proof. array_ring. Qed.

Lemma transpose3_involutive (A : Mat3) : transpose3 (transpose3 A) = A.
Proof. array_ring. Qed.

Lemma transpose3_madd3 (A B : Mat3) :
  transpose3 (madd3 A B) = madd3 (transpose3 A) (transpose3 B).
Proof. array_ring. Qed.

Lemma transpose3_msub3 (A B : Mat3) :
  transpose3 (msub3 A B) = msub3 (transpose3 A) (transpose3 B).
Proof. array_ring. Qed.

Lemma transpose3_I3 : transpose3 I3 = I3.
Proof. reflexivity. Qed.

Lemma transpose3_zeros3 : transpose3 zeros3 = zeros3.
Proof. reflexivity. Qed.

Lemma matvec3_zeros3 (v : Vec3) : matvec3 zeros3 v = vzeros3.
Proof. array_ring. Qed.

Lemma matvec3_vzeros3 (A : Mat3) : matvec3 A vzeros3 = vzeros3.
Proof. array_ring. Qed.

Lemma vadd3_vzeros3_l (v : Vec3) : vadd3 vzeros3 v = v.
Proof. array_ring. Qed.

(** *** 6x6 matrices *)

Lemma matmul6_assoc (A B C : Mat6) :
  matmul6 (matmul6 A B) C = matmul6 A (matmul6 B C).
Proof.
  destruct A, B, C; unfold matmul6, block; cbn [ul ur ll lr].
  apply mat6_ext;
    rewrite !matmul3_madd3_l, !matmul3_madd3_r, !matmul3_assoc;
    apply madd3_shuffle.
Qed.

Lemma transpose6_matmul6 (A B : Mat6) :
  transpose6 (matmul6 A B) = matmul6 (transpose6 B) (transpose6 A).
Proof.
  destruct A, B; unfold transpose6, matmul6, block; cbn [ul ur ll lr].
  apply mat6_ext; rewrite transpose3_madd3, !transpose3_matmul3; reflexivity.
Qed.

Lemma transpose6_madd6 (A B : Mat6) :
  transpose6 (madd6 A B) = madd6 (transpose6 A) (transpose6 B).
Proof.
  destruct A, B; unfold transpose6, madd6, block; cbn [ul ur ll lr].
  rewrite !transpose3_madd3; reflexivity.
Qed.

Lemma transpose6_msub6 (A B : Mat6) :
  transpose6 (msub6 A B) = msub6 (transpose6 A) (transpose6 B).
Proof.
  destruct A, B; unfold transpose6, msub6, block; cbn [ul ur ll lr].
  rewrite !transpose3_msub3; reflexivity.
Qed.

Lemma transpose6_involutive (A : Mat6) : transpose6 (transpose6 A) = A.
Proof.
  destruct A; unfold transpose6, block; cbn [ul ur ll lr].
  rewrite !transpose3_involutive; reflexivity.
Qed.

Lemma transpose6_I6 : transpose6 I6 = I6.
Proof. reflexivity. Qed.

Lemma matmul6_I6_l (A : Mat6) : matmul6 I6 A = A.
Proof.
  destruct A; unfold matmul6, I6, block; cbn [ul ur ll lr].
  rewrite !matmul3_I3_l, !matmul3_zeros3_l, !madd3_zeros3_l, !madd3_zeros3_r.
  reflexivity.
Qed.

Lemma matmul6_I6_r (A : Mat6) : matmul6 A I6 = A.
Proof.
  destruct A; unfold matmul6, I6, block; cbn [ul ur ll lr].
  rewrite !matmul3_I3_r, !matmul3_zeros3_r, !madd3_zeros3_l, !madd3_zeros3_r.
  reflexivity.
Qed.

Lemma matmul6_zeros6_l (A : Mat6) : matmul6 zeros6 A = zeros6.
Proof.
  destruct A; unfold matmul6, zeros6, block; cbn [ul ur ll lr].
  rewrite !matmul3_zeros3_l, !madd3_zeros3_l; reflexivity.
Qed.

Lemma matmul6_zeros6_r (A : Mat6) : matmul6 A zeros6 = zeros6.
Proof.
  destruct A; unfold matmul6, zeros6, block; cbn [ul ur ll lr].
  rewrite !matmul3_zeros3_r, !madd3_zeros3_l; reflexivity.
Qed.

Lemma madd6_zeros6_l (A : Mat6) : madd6 zeros6 A = A.
Proof.
  destruct A; unfold madd6, zeros6, block; cbn [ul ur ll lr].
  rewrite !madd3_zeros3_l; reflexivity.
Qed.

Lemma matvec6_zeros6 (v : Vec6) : matvec6 zeros6 v = vzeros6.
Proof.
  destruct v; unfold matvec6, zeros6, vzeros6, block; cbn [ul ur ll lr top bot].
  rewrite !matvec3_zeros3, !vadd3_vzeros3_l; reflexivity.
Qed.

(** The block product is the row by column product of the 6x6 arrays. *)
Lemma entry6_matmul6 (A B : Mat6) (i j : nat) :
  (i < 6)%nat -> (j < 6)%nat ->
  entry6 (matmul6 A B) i j =
  entry6 A i 0 * entry6 B 0 j + entry6 A i 1 * entry6 B 1 j +
  entry6 A i 2 * entry6 B 2 j + entry6 A i 3 * entry6 B 3 j +
  entry6 A i 4 * entry6 B 4 j + entry6 A i 5 * entry6 B 5 j.
Proof.
  intros Hi Hj.
  do 6 (destruct i as [|i];
        [ do 6 (destruct j as [|j]; [ cbn; unfold dot3; cbn; ring | ]); lia | ]).
  lia.
Qed.

Lemma entry6_transpose6 (A : Mat6) (i j : nat) :
  (i < 6)%nat -> (j < 6)%nat ->
  entry6 (transpose6 A) i j = entry6 A j i.
Proof.
  intros Hi Hj.
  do 6 (destruct i as [|i]; [ do 6 (destruct j as [|j]; [ reflexivity | ]); lia | ]).
  lia.
Qed.

Lemma entry6_I6 (i j : nat) :
  (i < 6)%nat -> (j < 6)%nat ->
  entry6 I6 i j = if (i =? j)%nat then 1 else 0.
Proof.
  intros Hi Hj.
  do 6 (destruct i as [|i]; [ do 6 (destruct j as [|j]; [ reflexivity | ]); lia | ]).
  lia.
Qed.

(** *** The inverse *)

Lemma is_inverse_unique (S M N : Mat6) :
  is_inverse S M -> is_inverse S N -> M = N.
Proof.
  intros [_ HM] [HN _].
  rewrite <- (matmul6_I6_r M), <- HN, <- matmul6_assoc, HM.
  apply matmul6_I6_l.
Qed.

Lemma inv_Ret (S M : Mat6) : is_inverse S M -> inv S = Ret M.
Proof.
  intros HM. unfold inv.
  destruct (excluded_middle_informative (invertible S)) as [H | H].
  - f_equal.
    destruct (constructive_indefinite_description _ H) as [N HN]; cbn.
    exact (is_inverse_unique S N M HN HM).
  - exfalso; apply H; exists M; exact HM.
Qed.

Lemma inv_Ret_inv (S M : Mat6) : inv S = Ret M -> is_inverse S M.
Proof.
  unfold inv.
  destruct (excluded_middle_informative (invertible S)) as [H | H]; [ | discriminate ].
  destruct (constructive_indefinite_description _ H) as [N HN]; cbn.
  intros E; injection E as <-; exact HN.
Qed.

Lemma inv_Fail (S : Mat6) : ~ invertible S -> inv S = Fail LinAlgError.
Proof.
  intros HS. unfold inv.
  destruct (excluded_middle_informative (invertible S)) as [H | H];
    [ contradiction | reflexivity ].
Qed.

End LinAlgFacts.

(** ** Facts about the outcomes and the norms *)

Module RunFacts.
Import LinAlg LinAlgFacts.

Lemma bind_Ret_inv {A B : Type} (m : outcome A) (k : A -> outcome B) (b : B) :
  bind m k = Ret b -> exists a, m = Ret a /\ k a = Ret b.
Proof. destruct m as [a | e]; cbn; [ eauto | discriminate ]. Qed.

Lemma Ret_inj {A : Type} (a b : A) : Ret a = Ret b -> a = b.
Proof. intros H; injection H; auto. Qed.

Lemma vdiv3_zero (a : Vec3) : vdiv3 a 0 = Fail NonFinite.
Proof. unfold vdiv3. destruct (Req_dec_T 0 0); [ reflexivity | contradiction ]. Qed.

Lemma vdiv3_nonzero (a : Vec3) (s : R) :
  s <> 0 -> vdiv3 a s = Ret (mkVec3 (vx a / s) (vy a / s) (vz a / s)).
Proof. intros Hs. unfold vdiv3. destruct (Req_dec_T s 0); [ contradiction | reflexivity ]. Qed.

Lemma vdiv4_nonzero (a : Vec4) (s : R) :
  s <> 0 -> vdiv4 a s = Ret (mkVec4 (q0 a / s) (q1 a / s) (q2 a / s) (q3 a / s)).
Proof. intros Hs. unfold vdiv4. destruct (Req_dec_T s 0); [ contradiction | reflexivity ]. Qed.


Lemma dot3_nonneg (a : Vec3) : 0 <= dot3 a a.
Proof. destruct a; unfold dot3; cbn. nra. Qed.

Lemma dot4_nonneg (a : Vec4) : 0 <= dot4 a a.
Proof. destruct a; unfold dot4; cbn. nra. Qed.

Lemma norm3_vzeros3 : norm3 vzeros3 = 0.
Proof.
  unfold norm3, dot3, vzeros3; cbn.
  replace (0 * 0 + 0 * 0 + 0 * 0) with 0 by ring. apply sqrt_0.
Qed.

Lemma norm3_vsub3_diag (a : Vec3) : norm3 (vsub3 a a) = 0.
Proof.
  destruct a as [x y z]. unfold norm3, dot3, vsub3; cbn.
  replace ((x - x) * (x - x) + (y - y) * (y - y) + (z - z) * (z - z)) with 0 by ring.
  apply sqrt_0.
Qed.

Lemma norm3_vneg3 (a : Vec3) : norm3 (vneg3 a) = norm3 a.
Proof.
  destruct a as [x y z]. unfold norm3, dot3, vneg3; cbn. f_equal. ring.
Qed.

Lemma vsub3_vzeros3 (a : Vec3) : vsub3 a vzeros3 = a.
Proof. array_ring. Qed.

(** The norm of an array along the first or the third axis. *)
Lemma norm3_x (x : R) : 0 <= x -> norm3 (mkVec3 x 0 0) = x.
Proof.
  intros Hx. unfold norm3, dot3; cbn.
  replace (x * x + 0 * 0 + 0 * 0) with (x * x) by ring. apply sqrt_square, Hx.
Qed.

Lemma norm3_z (z : R) : 0 <= z -> norm3 (mkVec3 0 0 z) = z.
Proof.
  intros Hz. unfold norm3, dot3; cbn.
  replace (0 * 0 + 0 * 0 + z * z) with (z * z) by ring. apply sqrt_square, Hz.
Qed.


End RunFacts.

(** ** The stages of [step] *)

Module MekfFacts.
Import LinAlg MathUtils Mekf LinAlgFacts RunFacts.

(** *** Attitude propagation *)

Lemma quaternion_mul_one_r (a : Vec4) (r : Vec3) :
  quaternion_mul a (concat1 (cos (0 / 2)) (vscale3 r (sin (0 / 2)))) = a.
Proof.
  replace (0 / 2) with 0 by field. rewrite cos_0, sin_0.
  destruct a, r. unfold quaternion_mul, concat1, vscale3; cbn.
  apply vec4_ext; ring.
Qed.

Lemma propagate_state_same (a : Vec4) (b : Vec3) (δt : R) :
  propagate_state a b b δt = Ret a.
Proof.
  unfold propagate_state.
  destruct (Req_dec_T (norm3 (vsub3 b b)) 0) as [_ | H]; [ reflexivity | ].
  exfalso; apply H, norm3_vsub3_diag.
Qed.

Lemma propagate_state_no_time (a : Vec4) (b ω : Vec3) :
  propagate_state a b ω 0 = Ret a.
Proof.
  unfold propagate_state.
  destruct (Req_dec_T (norm3 (vsub3 ω b)) 0) as [_ | H]; [ reflexivity | ].
  rewrite (vdiv3_nonzero _ _ H); cbn [bind].
  rewrite Rmult_0_r, quaternion_mul_one_r. reflexivity.
Qed.

Lemma propagate_state_total (a : Vec4) (b ω : Vec3) (δt : R) :
  exists q_p, propagate_state a b ω δt = Ret q_p.
Proof.
  unfold propagate_state.
  destruct (Req_dec_T (norm3 (vsub3 ω b)) 0) as [_ | H]; [ eauto | ].
  rewrite (vdiv3_nonzero _ _ H); cbn [bind]. eauto.
Qed.

(** *** Covariance propagation *)

Lemma rate_of_step (ω : Vec3) : vneg3 (vsub3 ω β) = vneg3 ω.
Proof. unfold β. fold vzeros3. rewrite vsub3_vzeros3. reflexivity. Qed.

Lemma transition_Ret (ω : Vec3) (δt : R) :
  norm3 ω <> 0 ->
  transition ω δt =
  Ret (Spec.transition_of (Spec.rotation_block_of_unit_hat (vneg3 ω) δt) δt).
Proof.
  intros H. unfold transition. rewrite rate_of_step.
  rewrite vdiv3_nonzero by (rewrite norm3_vneg3; exact H).
  reflexivity.
Qed.

Lemma transition_still (ω : Vec3) (δt : R) :
  norm3 ω = 0 -> transition ω δt = Fail NonFinite.
Proof.
  intros H. unfold transition. rewrite rate_of_step, norm3_vneg3, H, vdiv3_zero.
  reflexivity.
Qed.

Lemma propagate_covariance_still (P0 : Mat6) (ω : Vec3) (δt : R) :
  norm3 ω = 0 -> propagate_covariance P0 ω δt = Fail NonFinite.
Proof.
  intros H. unfold propagate_covariance. rewrite transition_still by exact H.
  reflexivity.
Qed.

Lemma propagate_covariance_Ret (P0 : Mat6) (ω : Vec3) (δt : R) :
  norm3 ω <> 0 ->
  propagate_covariance P0 ω δt =
  Ret (Spec.propagated
         (Spec.transition_of (Spec.rotation_block_of_unit_hat (vneg3 ω) δt) δt)
         P0 W).
Proof.
  intros H. unfold propagate_covariance. rewrite transition_Ret by exact H.
  cbn [bind]. unfold Spec.propagated. rewrite matmul6_assoc. reflexivity.
Qed.

Lemma propagate_covariance_Ret_inv (P0 P_p : Mat6) (ω : Vec3) (δt : R) :
  propagate_covariance P0 ω δt = Ret P_p ->
  exists A, transition ω δt = Ret A /\
            P_p = madd6 (matmul6 A (matmul6 P0 (transpose6 A))) W.
Proof.
  unfold propagate_covariance. intros H.
  apply bind_Ret_inv in H as (A & HA & E). injection E as <-. eauto.
Qed.

(** *** Symmetry *)

Lemma symmetric_W : symmetric W.
Proof. reflexivity. Qed.

Lemma symmetric_V : symmetric V.
Proof. reflexivity. Qed.

Lemma symmetric_congruence (A M : Mat6) :
  symmetric M -> symmetric (matmul6 A (matmul6 M (transpose6 A))).
Proof.
  unfold symmetric. intros HM.
  rewrite !transpose6_matmul6, transpose6_involutive, HM.
  apply matmul6_assoc.
Qed.

Lemma symmetric_madd6 (A B : Mat6) :
  symmetric A -> symmetric B -> symmetric (madd6 A B).
Proof.
  unfold symmetric. intros HA HB. rewrite transpose6_madd6, HA, HB. reflexivity.
Qed.

Lemma symmetric_update_covariance (L C P_p : Mat6) :
  symmetric P_p -> symmetric (update_covariance L C P_p).
Proof.
  intros HP. unfold update_covariance.
  apply symmetric_madd6; apply symmetric_congruence; [ exact HP | exact symmetric_V ].
Qed.

Lemma symmetric_propagate_covariance (P0 P_p : Mat6) (ω : Vec3) (δt : R) :
  symmetric P0 -> propagate_covariance P0 ω δt = Ret P_p -> symmetric P_p.
Proof.
  intros HP H. apply propagate_covariance_Ret_inv in H as (A & _ & ->).
  apply symmetric_madd6; [ apply symmetric_congruence, HP | exact symmetric_W ].
Qed.

(** *** The Joseph form *)


Lemma innovation_covariance_spec (P_p C : Mat6) :
  innovation_covariance P_p C = Spec.innovation_cov C P_p V.
Proof.
  unfold innovation_covariance, Spec.innovation_cov. rewrite matmul6_assoc.
  reflexivity.
Qed.

(** *** The run of [step], stage by stage *)

Lemma step_Ret_inv (st st' : State) (ω : Vec3) (δt : R)
    (nr_mag nr_sun br_mag br_sun : Vec3) :
  step st ω δt nr_mag nr_sun br_mag br_sun = Ret st' ->
  exists q_p P_p L q_u,
    propagate_state (state_q st) (state_β st) ω δt = Ret q_p /\
    propagate_covariance (state_P st) ω δt = Ret P_p /\
    kalman_gain P_p (sensitivity br_mag br_sun) = Ret L /\
    update_attitude q_p
      (top (correction L (innovation q_p nr_mag nr_sun br_mag br_sun))) = Ret q_u /\
    st' = mkState q_u
            (vadd3 β (bot (correction L (innovation q_p nr_mag nr_sun br_mag br_sun))))
            (update_covariance L (sensitivity br_mag br_sun) P_p).
Proof.
  unfold step. intros H.
  apply bind_Ret_inv in H as (q_p & Hq & H).
  apply bind_Ret_inv in H as (P_p & HP & H).
  apply bind_Ret_inv in H as (L & HL & H).
  apply bind_Ret_inv in H as (q_u & Hu & H).
  injection H as <-.
  exists q_p, P_p, L, q_u. auto.
Qed.

Lemma step_stages (st : State) (ω : Vec3) (δt : R)
    (nr_mag nr_sun br_mag br_sun : Vec3) (q_p q_u : Vec4) (P_p L : Mat6) :
  propagate_state (state_q st) (state_β st) ω δt = Ret q_p ->
  propagate_covariance (state_P st) ω δt = Ret P_p ->
  kalman_gain P_p (sensitivity br_mag br_sun) = Ret L ->
  update_attitude q_p
    (top (correction L (innovation q_p nr_mag nr_sun br_mag br_sun))) = Ret q_u ->
  step st ω δt nr_mag nr_sun br_mag br_sun =
  Ret (mkState q_u
         (vadd3 β (bot (correction L (innovation q_p nr_mag nr_sun br_mag br_sun))))
         (update_covariance L (sensitivity br_mag br_sun) P_p)).
Proof.
  intros Hq HP HL Hu. unfold step.
  rewrite Hq; cbn [bind]. rewrite HP; cbn [bind]. rewrite HL; cbn [bind].
  rewrite Hu; cbn [bind]. reflexivity.
Qed.


Lemma update_attitude_no_rotation (q_p : Vec4) :
  update_attitude q_p vzeros3 = Fail NonFinite.
Proof.
  unfold update_attitude. rewrite norm3_vzeros3, vdiv3_zero. reflexivity.
Qed.

(** *** When [step] returns *)

(** The two helpers agree: the left-multiplication matrix of [a] takes [b]
    to the product of [a] and [b], and the product multiplies the norms. *)
Lemma left_matrix_is_product (a b : Vec4) :
  matvec4 (quaternion_to_left_matrix a) b = quaternion_mul a b.
Proof.
  unfold quaternion_to_left_matrix, quaternion_mul. destruct_arrays.
  unfold_arrays. apply vec4_ext; ring.
Qed.

Lemma dot4_quaternion_mul (a b : Vec4) :
  dot4 (quaternion_mul a b) (quaternion_mul a b) = dot4 a a * dot4 b b.
Proof.
  unfold quaternion_mul. destruct_arrays. unfold_arrays. ring.
Qed.

Lemma norm4_quaternion_mul (a b : Vec4) :
  norm4 (quaternion_mul a b) = norm4 a * norm4 b.
Proof.
  unfold norm4. rewrite dot4_quaternion_mul.
  apply sqrt_mult; apply dot4_nonneg.
Qed.

(** The increment [[cos(θ/2), r·sin(θ/2)]] about the axis [r = a / ‖a‖]
    has norm one. *)
Lemma norm4_increment (a r : Vec3) (x : R) :
  vdiv3 a (norm3 a) = Ret r ->
  norm4 (concat1 (cos x) (vscale3 r (sin x))) = 1.
Proof.
  unfold vdiv3. destruct (Req_dec_T (norm3 a) 0) as [| Hn]; [ discriminate | ].
  intros E. apply Ret_inj in E. subst r.
  assert (Hsq : norm3 a * norm3 a = dot3 a a)
    by (unfold norm3; apply sqrt_sqrt, dot3_nonneg).
  unfold norm4, dot4, concat1, vscale3; cbn [q0 q1 q2 q3 vx vy vz].
  replace (cos x * cos x + vx a / norm3 a * sin x * (vx a / norm3 a * sin x) +
           vy a / norm3 a * sin x * (vy a / norm3 a * sin x) +
           vz a / norm3 a * sin x * (vz a / norm3 a * sin x))
    with ((cos x)² + (sin x)² * (dot3 a a / (norm3 a * norm3 a)))
    by (unfold Rsqr, dot3; field; exact Hn).
  rewrite Hsq. unfold Rdiv at 1. rewrite Rinv_r.
  - rewrite Rmult_1_r, Rplus_comm, sin2_cos2. apply sqrt_1.
  - rewrite <- Hsq. apply Rmult_integral_contrapositive_currified; exact Hn.
Qed.

Lemma propagate_state_norm (a q_p : Vec4) (b ω : Vec3) (δt : R) :
  propagate_state a b ω δt = Ret q_p -> norm4 q_p = norm4 a.
Proof.
  unfold propagate_state.
  destruct (Req_dec_T (norm3 (vsub3 ω b)) 0) as [_ | H].
  - intros E. apply Ret_inj in E. subst; reflexivity.
  - intros E. apply bind_Ret_inv in E as (r & Hr & E).
    apply Ret_inj in E. subst q_p.
    rewrite norm4_quaternion_mul, (norm4_increment _ _ _ Hr). ring.
Qed.

Lemma update_attitude_Ret (q_p : Vec4) (ϕ : Vec3) :
  norm3 ϕ <> 0 -> norm4 q_p <> 0 -> exists q_u, update_attitude q_p ϕ = Ret q_u.
Proof.
  intros Hϕ Hq. unfold update_attitude.
  destruct (vdiv3 ϕ (norm3 ϕ)) as [r | e] eqn:Hr.
  - cbn [bind].
    rewrite left_matrix_is_product, norm4_quaternion_mul, (norm4_increment _ _ _ Hr).
    rewrite Rmult_1_r, vdiv4_nonzero by exact Hq. eauto.
  - rewrite vdiv3_nonzero in Hr by exact Hϕ. discriminate.
Qed.

(** [step] returns a state when the rate is not zero, the innovation
    covariance is invertible, the rotation part of the correction is not
    zero and the attitude of the prior is not the zero array. *)
Lemma step_returns (st : State) (ω : Vec3) (δt : R)
    (nr_mag nr_sun br_mag br_sun : Vec3) :
  norm4 (state_q st) <> 0 ->
  norm3 ω <> 0 ->
  (forall P_p, propagate_covariance (state_P st) ω δt = Ret P_p ->
     invertible (innovation_covariance P_p (sensitivity br_mag br_sun))) ->
  (forall q_p P_p L,
     propagate_state (state_q st) (state_β st) ω δt = Ret q_p ->
     propagate_covariance (state_P st) ω δt = Ret P_p ->
     kalman_gain P_p (sensitivity br_mag br_sun) = Ret L ->
     norm3 (top (correction L (innovation q_p nr_mag nr_sun br_mag br_sun))) <> 0) ->
  exists st', step st ω δt nr_mag nr_sun br_mag br_sun = Ret st'.
Proof.
  intros Hq Hω HS Hϕ.
  destruct (propagate_state_total (state_q st) (state_β st) ω δt) as [q_p Hp].
  pose proof (propagate_covariance_Ret (state_P st) ω δt Hω) as HP.
  destruct (HS _ HP) as [M HM].
  assert (HL : kalman_gain
                 (Spec.propagated
                    (Spec.transition_of
                       (Spec.rotation_block_of_unit_hat (vneg3 ω) δt) δt)
                    (state_P st) W)
                 (sensitivity br_mag br_sun)
               = Ret (matmul6
                        (Spec.propagated
                           (Spec.transition_of
                              (Spec.rotation_block_of_unit_hat (vneg3 ω) δt) δt)
                           (state_P st) W)
                        (matmul6 (transpose6 (sensitivity br_mag br_sun)) M)))
    by (unfold kalman_gain; rewrite (inv_Ret _ _ HM); reflexivity).
  destruct (update_attitude_Ret q_p _ (Hϕ _ _ _ Hp HP HL)) as [q_u Hu].
  - rewrite (propagate_state_norm _ _ _ _ _ Hp). exact Hq.
  - eexists. exact (step_stages _ _ _ _ _ _ _ _ _ _ _ Hp HP HL Hu).
Qed.

End MekfFacts.

(** ** The concrete cycles, run *)

Module ScenarioFacts.
Import LinAlg MathUtils Mekf LinAlgFacts RunFacts MekfFacts Scenario.

Lemma norm3_e_z : norm3 e_z = 1.
Proof. apply norm3_z. lra. Qed.

(** *** The covariance propagated from the identity *)

Lemma rotation_block_about_z (δt : R) :
  Spec.rotation_block_of_unit_hat (vneg3 e_z) δt =
  mkMat3 (cos δt) (sin δt) 0   (- sin δt) (cos δt) 0   0 0 1.
Proof.
  unfold Spec.rotation_block_of_unit_hat.
  rewrite norm3_vneg3, norm3_e_z, Rmult_1_l.
  unfold hat, e_z. unfold_arrays. apply mat3_ext; field.
Qed.

Lemma propagate_covariance_identity (δt : R) :
  propagate_covariance I6 e_z δt = Ret (P_p0 δt).
Proof.
  rewrite propagate_covariance_Ret by (rewrite norm3_e_z; lra).
  rewrite rotation_block_about_z. f_equal.
  pose proof (sin2_cos2 δt) as H. unfold Rsqr in H.
  unfold Spec.propagated, Spec.transition_of, P_p0, P_p_of, a0, W.
  generalize dependent (sin δt). generalize dependent (cos δt). intros c s H.
  unfold_arrays. apply mat6_ext; apply mat3_ext; nra.
Qed.

(** *** The gain and the correction *)

Section Gain.
Variables a b g w : R.
Hypothesis w_nonzero : w <> 0.
Hypothesis aw_nonzero : a + w <> 0.
Hypothesis aaw_nonzero : 2 * a + w <> 0.

Lemma S_of_spec :
  madd6 (matmul6 C0 (matmul6 (P_p_of a b g) (transpose6 C0))) (mscale6 I6 w)
  = S_of a w.
Proof.
  unfold C0, sensitivity, hat, e_x, e_y, P_p_of, S_of. unfold_arrays.
  apply mat6_ext; apply mat3_ext; ring.
Qed.

Lemma S_inv_of_is_inverse : is_inverse (S_of a w) (S_inv_of a w).
Proof.
  split; unfold S_of, S_inv_of; unfold_arrays;
    apply mat6_ext; apply mat3_ext; field; auto.
Qed.

Lemma kalman_gain_of :
  inv (madd6 (matmul6 C0 (matmul6 (P_p_of a b g) (transpose6 C0))) (mscale6 I6 w))
  = Ret (S_inv_of a w).
Proof. apply inv_Ret. rewrite S_of_spec. exact S_inv_of_is_inverse. Qed.

Lemma correction_of :
  matvec6 (matmul6 (P_p_of a b g) (matmul6 (transpose6 C0) (S_inv_of a w)))
          (concat vzeros3 (mkVec3 0 1 (- 1)))
  = concat (mkVec3 (a / (a + w)) 0 0) (mkVec3 (b / (a + w)) 0 0).
Proof.
  unfold C0, sensitivity, hat, e_x, e_y, P_p_of, S_inv_of. unfold_arrays.
  f_equal; apply vec3_ext; field; auto.
Qed.

End Gain.

Lemma a0_positive (δt : R) : 1 <= a0 δt.
Proof. unfold a0. nra. Qed.

Lemma kalman_gain0 (δt : R) : kalman_gain (P_p0 δt) C0 = Ret (L0 δt).
Proof.
  pose proof (a0_positive δt).
  unfold kalman_gain, innovation_covariance, V, P_p0.
  rewrite kalman_gain_of by lra. reflexivity.
Qed.

Lemma Z0_value : Z0 = concat vzeros3 (mkVec3 0 1 (- 1)).
Proof.
  unfold Z0, innovation, quaternion_to_rotation_matrix, q_id, e_x, e_y, e_z.
  unfold_arrays. f_equal; apply vec3_ext; ring.
Qed.

Lemma correction0 (δt : R) :
  correction (L0 δt) Z0 =
  concat (mkVec3 (θ0 δt) 0 0) (mkVec3 (- δt / (a0 δt + 1e-6)) 0 0).
Proof.
  pose proof (a0_positive δt).
  unfold correction, L0, P_p0, S_inv0, θ0. rewrite Z0_value.
  apply correction_of; lra.
Qed.

(** *** The attitude update about the first axis *)

Lemma update_attitude_about_x (θ : R) :
  0 < θ ->
  update_attitude q_id (mkVec3 θ 0 0) = Ret (mkVec4 (cos (θ / 2)) (sin (θ / 2)) 0 0).
Proof.
  intros Hθ. unfold update_attitude.
  rewrite norm3_x by lra. rewrite vdiv3_nonzero by lra. cbn [bind vx vy vz].
  assert (E : matvec4 (quaternion_to_left_matrix q_id)
                (concat1 (cos (θ / 2))
                   (vscale3 (mkVec3 (θ / θ) (0 / θ) (0 / θ)) (sin (θ / 2))))
              = mkVec4 (cos (θ / 2)) (sin (θ / 2)) 0 0).
  { unfold quaternion_to_left_matrix, q_id. unfold_arrays.
    apply vec4_ext; field; lra. }
  rewrite E.
  assert (N : norm4 (mkVec4 (cos (θ / 2)) (sin (θ / 2)) 0 0) = 1).
  { unfold norm4, dot4; cbn [q0 q1 q2 q3].
    replace (cos (θ / 2) * cos (θ / 2) + sin (θ / 2) * sin (θ / 2) + 0 * 0 + 0 * 0)
      with ((sin (θ / 2))² + (cos (θ / 2))²) by (unfold Rsqr; ring).
    rewrite sin2_cos2. apply sqrt_1. }
  rewrite N, vdiv4_nonzero by lra. cbn [q0 q1 q2 q3].
  f_equal. apply vec4_ext; field.
Qed.

Lemma theta0_positive (δt : R) : 0 < θ0 δt.
Proof.
  pose proof (a0_positive δt). unfold θ0. apply Rdiv_lt_0_compat; lra.
Qed.

(** *** The cycles of the biased prior *)

(** Whatever the time step, the cycle runs to the posterior. *)
Lemma step_biased (δt : R) :
  step biased e_z δt e_x e_z e_x e_y = Ret (posterior δt).
Proof.
  apply (step_stages biased e_z δt e_x e_z e_x e_y q_id
           (mkVec4 (cos (θ0 δt / 2)) (sin (θ0 δt / 2)) 0 0) (P_p0 δt) (L0 δt)).
  - apply propagate_state_same.
  - apply propagate_covariance_identity.
  - apply kalman_gain0.
  - fold Z0. rewrite correction0. cbn [top].
    apply update_attitude_about_x, theta0_positive.
Qed.

Lemma posterior_bias (δt : R) :
  state_β (posterior δt) = mkVec3 (- δt / (a0 δt + 1e-6)) 0 0.
Proof.
  unfold posterior; cbn [state_β]. rewrite correction0; cbn [bot].
  unfold β, vadd3; cbn [vx vy vz]. apply vec3_ext; ring.
Qed.

(** *** A rate of zero *)

Lemma step_still (st : State) (ω : Vec3) (δt : R)
    (nr_mag nr_sun br_mag br_sun : Vec3) :
  norm3 ω = 0 -> step st ω δt nr_mag nr_sun br_mag br_sun = Fail NonFinite.
Proof.
  intros H. unfold step.
  destruct (propagate_state_total (state_q st) (state_β st) ω δt) as [q_p ->].
  cbn [bind]. rewrite propagate_covariance_still by exact H. reflexivity.
Qed.

(** *** A correction of zero *)

Lemma matvec6_vzeros6 (A : Mat6) : matvec6 A vzeros6 = vzeros6.
Proof.
  unfold matvec6, vzeros6; cbn [top bot].
  rewrite !matvec3_vzeros3, !vadd3_vzeros3_l. reflexivity.
Qed.

Lemma innovation_consistent : innovation q_id e_x e_y e_x e_y = vzeros6.
Proof.
  unfold innovation, quaternion_to_rotation_matrix, q_id, e_x, e_y.
  unfold_arrays. f_equal; apply vec3_ext; ring.
Qed.

Lemma step_consistent : step rest e_z 0 e_x e_y e_x e_y = Fail NonFinite.
Proof.
  unfold step, rest; cbn [state_q state_β state_P].
  rewrite propagate_state_no_time; cbn [bind].
  rewrite propagate_covariance_identity; cbn [bind].
  fold C0. rewrite kalman_gain0; cbn [bind].
  rewrite innovation_consistent. unfold correction.
  rewrite matvec6_vzeros6. cbn [top vzeros6].
  rewrite update_attitude_no_rotation. reflexivity.
Qed.

(** *** A sensitivity of zero *)

Lemma sensitivity_zero : sensitivity vzeros3 vzeros3 = zeros6.
Proof.
  unfold sensitivity, hat, zeros6. unfold_arrays.
  apply mat6_ext; apply mat3_ext; ring.
Qed.

Lemma innovation_covariance_zero (P_p : Mat6) :
  innovation_covariance P_p zeros6 = V.
Proof.
  unfold innovation_covariance. rewrite matmul6_zeros6_l. apply madd6_zeros6_l.
Qed.

Lemma V_is_inverse : is_inverse V (mscale6 I6 (/ 1e-6)).
Proof.
  unfold V. split; unfold_arrays; apply mat6_ext; apply mat3_ext; field.
Qed.

Lemma kalman_gain_zero (P_p : Mat6) : kalman_gain P_p zeros6 = Ret zeros6.
Proof.
  unfold kalman_gain. rewrite innovation_covariance_zero.
  rewrite (inv_Ret _ _ V_is_inverse); cbn [bind].
  replace (transpose6 zeros6) with zeros6 by reflexivity.
  rewrite matmul6_zeros6_l, matmul6_zeros6_r. reflexivity.
Qed.

Lemma step_unobservable (st : State) (ω : Vec3) (δt : R) (nr_mag nr_sun : Vec3) :
  step st ω δt nr_mag nr_sun vzeros3 vzeros3 = Fail NonFinite.
Proof.
  unfold step.
  destruct (propagate_state_total (state_q st) (state_β st) ω δt) as [q_p ->].
  cbn [bind].
  destruct (Req_dec_T (norm3 ω) 0) as [H | H].
  - rewrite propagate_covariance_still by exact H. reflexivity.
  - rewrite propagate_covariance_Ret by exact H. cbn [bind].
    rewrite sensitivity_zero, kalman_gain_zero; cbn [bind].
    unfold correction. rewrite matvec6_zeros6. cbn [top vzeros6].
    rewrite update_attitude_no_rotation. reflexivity.
Qed.

(** *** A singular innovation covariance *)

Lemma step_singular (st : State) (ω : Vec3) (δt : R)
    (nr_mag nr_sun br_mag br_sun : Vec3) (P_p : Mat6) :
  propagate_covariance (state_P st) ω δt = Ret P_p ->
  ~ invertible (Spec.innovation_cov (sensitivity br_mag br_sun) P_p V) ->
  step st ω δt nr_mag nr_sun br_mag br_sun = Fail LinAlgError.
Proof.
  intros HP HS. unfold step.
  destruct (propagate_state_total (state_q st) (state_β st) ω δt) as [q_p ->].
  cbn [bind]. rewrite HP; cbn [bind].
  unfold kalman_gain. rewrite innovation_covariance_spec, inv_Fail by exact HS.
  reflexivity.
Qed.

Lemma propagate_covariance_no_time (P0 : Mat6) (ω : Vec3) :
  norm3 ω <> 0 -> propagate_covariance P0 ω 0 = Ret (madd6 P0 W).
Proof.
  intros H. rewrite propagate_covariance_Ret by exact H. f_equal.
  assert (E : Spec.transition_of (Spec.rotation_block_of_unit_hat (vneg3 ω) 0) 0 = I6).
  { unfold Spec.rotation_block_of_unit_hat, Spec.transition_of.
    rewrite Rmult_0_r, sin_0, cos_0. unfold hat. unfold_arrays.
    apply mat6_ext; apply mat3_ext; ring. }
  rewrite E. unfold Spec.propagated.
  rewrite matmul6_I6_l, transpose6_I6, matmul6_I6_r. reflexivity.
Qed.

Lemma indefinite_propagated :
  propagate_covariance (state_P indefinite) e_z 0 = Ret (mscale6 I6 (- 2e-6 + 1e-6)).
Proof.
  rewrite propagate_covariance_no_time by (rewrite norm3_e_z; lra).
  unfold indefinite, W; cbn [state_P]. f_equal.
  unfold_arrays. apply mat6_ext; apply mat3_ext; ring.
Qed.

Lemma indefinite_singular :
  ~ invertible (Spec.innovation_cov (sensitivity e_x vzeros3)
                  (mscale6 I6 (- 2e-6 + 1e-6)) V).
Proof.
  intros [M [H _]].
  apply (f_equal (fun X => m11 (ul X))) in H.
  unfold Spec.innovation_cov, sensitivity, hat, V, e_x in H.
  unfold_arrays. lra.
Qed.

(** *** The rotation block at a rate of two *)

Lemma norm3_two_e_z : norm3 two_e_z = 2.
Proof. apply norm3_z. lra. Qed.

Lemma rotation_blocks_differ :
  Spec.rotation_block_of_unit_hat (vneg3 two_e_z) (PI / 2) <>
  Spec.rotation_block_of_hat (vneg3 two_e_z) (PI / 2).
Proof.
  intros H. apply (f_equal m00) in H.
  unfold Spec.rotation_block_of_unit_hat, Spec.rotation_block_of_hat in H.
  rewrite norm3_vneg3, norm3_two_e_z in H.
  replace (2 * (PI / 2)) with PI in H by field.
  rewrite sin_PI, cos_PI in H.
  unfold hat, two_e_z in H. unfold_arrays. lra.
Qed.

End ScenarioFacts.

(** ** The claims of the specification *)

Module MekfSpec.
Import LinAlg MathUtils Mekf LinAlgFacts RunFacts MekfFacts Scenario ScenarioFacts.

(** C1, on the cycle of the biased prior with a time step of one.  The
    specification has the bias update add the correction to the bias of
    the prior state, [β_u = β + δβ].  The cycle returns the posterior,
    whose bias is the correction [δβ] alone: the bias [(0, 0, 1)] of the
    prior is dropped, because the [β] of line 101 is the module-level
    array of zeros. *)
Theorem step_bias_drops_prior :
  step biased e_z 1 e_x e_z e_x e_y = Ret (posterior 1) /\
  state_β (posterior 1) = bot (correction (L0 1) Z0) /\
  vz (state_β (posterior 1)) = 0 /\
  vz (vadd3 (state_β biased) (bot (correction (L0 1) Z0))) = 1 /\
  state_β (posterior 1) <> vadd3 (state_β biased) (bot (correction (L0 1) Z0)).
Proof.
  split; [ exact (step_biased 1) | ].
  rewrite posterior_bias, correction0; cbn [bot state_β biased].
  unfold vadd3, e_z; cbn [vx vy vz].
  split; [ reflexivity | ].
  split; [ reflexivity | ].
  split; [ ring | ].
  intros H. apply (f_equal vz) in H; cbn [vz] in H. lra.
Qed.

(** C2, as stated, fails: for the prior at rest, a rate of two about the
    third axis and a time step of [PI / 2], the transition matrix of [step]
    is not the one built from the hat matrix of [v = -(ω - β)]. *)
Lemma transition_not_hat_of_rate :
  transition two_e_z (PI / 2) <>
  Ret (Spec.transition_of
         (Spec.rotation_block_of_hat (vneg3 (vsub3 two_e_z (state_β rest))) (PI / 2))
         (PI / 2)).
Proof.
  rewrite transition_Ret by (rewrite norm3_two_e_z; lra).
  cbn [state_β rest]. rewrite vsub3_vzeros3.
  intros H. apply Ret_inj in H.
  apply (f_equal ul) in H. cbn [ul Spec.transition_of block] in H.
  exact (rotation_blocks_differ H).
Qed.

(** C2, amended: for a prior whose bias is the module-level [β] (the zero
    vector) and a rate with [v = -(ω - β)] not zero, the transition matrix
    of [step] is [A = [[R, -δt·I₃], [0, I₃]]] with
    [R = I₃ + v̂·sin(‖v‖δt) + v̂²·(1 - cos(‖v‖δt))], where [v̂] is the hat
    matrix of the unit vector [v / ‖v‖], and the propagated covariance is
    [P_p = A·P·Aᵀ + W]. *)
Theorem transition_rodrigues (st : State) (ω : Vec3) (δt : R) :
  state_β st = β ->
  norm3 (vneg3 (vsub3 ω (state_β st))) <> 0 ->
  transition ω δt =
    Ret (Spec.transition_of
           (Spec.rotation_block_of_unit_hat (vneg3 (vsub3 ω (state_β st))) δt) δt) /\
  propagate_covariance (state_P st) ω δt =
    Ret (Spec.propagated
           (Spec.transition_of
              (Spec.rotation_block_of_unit_hat (vneg3 (vsub3 ω (state_β st))) δt) δt)
           (state_P st) W).
Proof.
  intros -> Hn. rewrite rate_of_step in *. rewrite norm3_vneg3 in Hn.
  split; [ apply transition_Ret | apply propagate_covariance_Ret ]; exact Hn.
Qed.

Lemma transition_rodrigues_witness :
  transition e_z 1 =
    Ret (Spec.transition_of
           (Spec.rotation_block_of_unit_hat (vneg3 (vsub3 e_z (state_β rest))) 1) 1) /\
  propagate_covariance (state_P rest) e_z 1 =
    Ret (Spec.propagated
           (Spec.transition_of
              (Spec.rotation_block_of_unit_hat (vneg3 (vsub3 e_z (state_β rest))) 1) 1)
           (state_P rest) W).
Proof.
  apply (transition_rodrigues rest e_z 1).
  - reflexivity.
  - cbn [state_β rest]. rewrite norm3_vneg3, vsub3_vzeros3, norm3_e_z. lra.
Defined.

(** C3, on two cycles of the prior at rest.  The specification has a
    degenerate rotation treated as the identity.  [propagate_state] does
    so; [step] does not: with a rate of zero the division of line 71, and
    with measurements that agree with the prediction (a correction of
    zero) the division of line 98, are divisions by zero, and the state
    that is returned is not finite. *)
Theorem step_degenerate_rotation :
  propagate_state q_id vzeros3 vzeros3 1 = Ret q_id /\
  step rest vzeros3 1 e_x e_y e_x e_y = Fail NonFinite /\
  step rest e_z 0 e_x e_y e_x e_y = Fail NonFinite.
Proof.
  split; [ apply propagate_state_same | ].
  split; [ apply step_still, norm3_vzeros3 | exact step_consistent ].
Qed.

(** C4, as stated, fails: with both measured body vectors zero the
    sensitivity [C] is the zero matrix and the innovation covariance is
    invertible; [step] does not fail with the error of a singular matrix,
    it ends in the division by a rotation angle of zero. *)
Lemma zero_sensitivity_not_singular :
  sensitivity vzeros3 vzeros3 = zeros6 /\
  invertible (innovation_covariance (P_p0 1) (sensitivity vzeros3 vzeros3)) /\
  step rest e_z 1 e_x e_y vzeros3 vzeros3 = Fail NonFinite /\
  step rest e_z 1 e_x e_y vzeros3 vzeros3 <> Fail LinAlgError.
Proof.
  split; [ exact sensitivity_zero | ]. split.
  - rewrite sensitivity_zero, innovation_covariance_zero.
    exists (mscale6 I6 (/ 1e-6)). exact V_is_inverse.
  - rewrite step_unobservable. split; [ reflexivity | discriminate ].
Qed.

(** C4, amended: whenever the innovation covariance [S = C·P_p·Cᵀ + V] is
    not invertible, [step] fails with the error that the matrix inverse
    raises on a singular matrix, and returns no state; [C] is then not the
    zero matrix. *)
Theorem step_singular_innovation (st : State) (ω : Vec3) (δt : R)
    (nr_mag nr_sun br_mag br_sun : Vec3) (P_p : Mat6) :
  propagate_covariance (state_P st) ω δt = Ret P_p ->
  ~ invertible (Spec.innovation_cov (sensitivity br_mag br_sun) P_p V) ->
  step st ω δt nr_mag nr_sun br_mag br_sun = Fail LinAlgError /\
  sensitivity br_mag br_sun <> zeros6.
Proof.
  intros HP HS. split; [ exact (step_singular _ _ _ _ _ _ _ _ HP HS) | ].
  intros HC. apply HS. rewrite HC, <- innovation_covariance_spec.
  rewrite innovation_covariance_zero.
  exists (mscale6 I6 (/ 1e-6)). exact V_is_inverse.
Qed.

Lemma step_singular_innovation_witness :
  step indefinite e_z 0 e_x e_y e_x vzeros3 = Fail LinAlgError /\
  sensitivity e_x vzeros3 <> zeros6.
Proof.
  apply (step_singular_innovation indefinite e_z 0 e_x e_y e_x vzeros3
           (mscale6 I6 (- 2e-6 + 1e-6))).
  - exact indefinite_propagated.
  - exact indefinite_singular.
Defined.



(** C6: the covariance of a state returned by [step] from a prior with a
    symmetric covariance is symmetric. *)
Theorem step_covariance_symmetric (st st' : State) (ω : Vec3) (δt : R)
    (nr_mag nr_sun br_mag br_sun : Vec3) :
  symmetric (state_P st) ->
  step st ω δt nr_mag nr_sun br_mag br_sun = Ret st' ->
  symmetric (state_P st').
Proof.
  intros HP H. apply step_Ret_inv in H as (q_p & P_p & L & q_u & _ & Hp & _ & _ & ->).
  cbn [state_P]. apply symmetric_update_covariance.
  exact (symmetric_propagate_covariance _ _ _ _ HP Hp).
Qed.

Lemma step_covariance_symmetric_witness : symmetric (state_P (posterior 1)).
Proof.
  apply (step_covariance_symmetric biased (posterior 1) e_z 1 e_x e_z e_x e_y).
  - reflexivity.
  - exact (step_biased 1).
Defined.



(** C8: the sensitivity [C] of [step] has the hat matrices of [br_mag] and
    [br_sun] in its first three columns and zeros in its last three: it
    takes a stacked error [[δθ; δβ]] to the cross products of the two
    measured vectors with [δθ]. *)
Theorem sensitivity_hat_blocks (br_mag br_sun : Vec3) :
  (forall i j : nat,
      entry6 (sensitivity br_mag br_sun) i j =
      if (j <? 3)%nat
      then if (i <? 3)%nat then entry3 (hat br_mag) i j
           else entry3 (hat br_sun) (i - 3) j
      else 0) /\
  (forall δθ δβ : Vec3,
      matvec6 (sensitivity br_mag br_sun) (concat δθ δβ) =
      concat (cross3 br_mag δθ) (cross3 br_sun δθ)).
Proof.
  split.
  - intros i j. unfold entry6, sensitivity, block; cbn [ul ur ll lr].
    destruct (j <? 3)%nat, (i <? 3)%nat; try reflexivity.
    + unfold entry3. destruct i as [|[|i]], (j - 3)%nat as [|[|j']]; reflexivity.
    + unfold entry3. destruct (i - 3)%nat as [|[|i']], (j - 3)%nat as [|[|j']]; reflexivity.
  - intros δθ δβ. unfold sensitivity, hat. destruct_arrays. unfold_arrays.
    f_equal; apply vec3_ext; ring.
Qed.

(** C9: [propagate_state] returns the attitude unchanged when the rate
    equals the bias, and when the time step is zero. *)
Theorem propagate_state_unchanged (a : Vec4) (b ω : Vec3) (δt : R) :
  ω = b \/ δt = 0 -> propagate_state a b ω δt = Ret a.
Proof.
  intros [-> | ->]; [ apply propagate_state_same | apply propagate_state_no_time ].
Qed.

Lemma propagate_state_unchanged_witness :
  propagate_state q_id e_z e_z 1 = Ret q_id /\
  propagate_state q_id e_z e_x 0 = Ret q_id.
Proof.
  split.
  - apply (propagate_state_unchanged q_id e_z e_z 1). left; reflexivity.
  - apply (propagate_state_unchanged q_id e_z e_x 0). right; reflexivity.
Defined.

(** C10: the bias of a state returned by [step] is the module-level [β],
    which is the zero vector, plus the last three components of the
    correction [δx = L·Z]: it is these components, whatever the bias of the
    prior. *)
Theorem step_bias_is_correction (st st' : State) (ω : Vec3) (δt : R)
    (nr_mag nr_sun br_mag br_sun : Vec3) :
  step st ω δt nr_mag nr_sun br_mag br_sun = Ret st' ->
  exists q_p P_p L,
    propagate_state (state_q st) (state_β st) ω δt = Ret q_p /\
    propagate_covariance (state_P st) ω δt = Ret P_p /\
    kalman_gain P_p (sensitivity br_mag br_sun) = Ret L /\
    let δx := correction L (innovation q_p nr_mag nr_sun br_mag br_sun) in
    state_β st' = vadd3 β (bot δx) /\ β = vzeros3 /\ state_β st' = bot δx.
Proof.
  intros H. apply step_Ret_inv in H as (q_p & P_p & L & q_u & Hq & Hp & HL & _ & ->).
  exists q_p, P_p, L. cbn [state_β]. repeat split; auto.
  apply vadd3_vzeros3_l.
Qed.

Lemma step_bias_is_correction_witness :
  exists q_p P_p L,
    propagate_state (state_q biased) (state_β biased) e_z 1 = Ret q_p /\
    propagate_covariance (state_P biased) e_z 1 = Ret P_p /\
    kalman_gain P_p (sensitivity e_x e_y) = Ret L /\
    let δx := correction L (innovation q_p e_x e_z e_x e_y) in
    state_β (posterior 1) = vadd3 β (bot δx) /\ β = vzeros3 /\
    state_β (posterior 1) = bot δx.
Proof.
  exact (step_bias_is_correction biased (posterior 1) e_z 1 e_x e_z e_x e_y (step_biased 1)).
Defined.

End MekfSpec.

(** ** Further facts about the two functions *)

Module PropagateFacts.
Import LinAlg MathUtils Mekf LinAlgFacts RunFacts MekfFacts.

Lemma quaternion_mul_assoc (a b c : Vec4) :
  quaternion_mul (quaternion_mul a b) c = quaternion_mul a (quaternion_mul b c).
Proof.
  unfold quaternion_mul. destruct_arrays. unfold_arrays. apply vec4_ext; ring.
Qed.

(** The array divided by its norm is a unit axis. *)
Lemma unit_axis (a r : Vec3) :
  vdiv3 a (norm3 a) = Ret r -> dot3 r r = 1.
Proof.
  unfold vdiv3. destruct (Req_dec_T (norm3 a) 0) as [| Hn]; [ discriminate | ].
  intros E. apply Ret_inj in E. subst r.
  assert (Hsq : norm3 a * norm3 a = dot3 a a)
    by (unfold norm3; apply sqrt_sqrt, dot3_nonneg).
  unfold dot3 in *; cbn [vx vy vz] in *.
  replace (vx a / norm3 a * (vx a / norm3 a) + vy a / norm3 a * (vy a / norm3 a) +
           vz a / norm3 a * (vz a / norm3 a))
    with ((vx a * vx a + vy a * vy a + vz a * vz a) / (norm3 a * norm3 a))
    by (field; exact Hn).
  rewrite <- Hsq. field. exact Hn.
Qed.

(** Two increments about one axis compose to the increment of the sum of
    the angles. *)
Lemma increment_compose (r : Vec3) (x y : R) :
  dot3 r r = 1 ->
  quaternion_mul (concat1 (cos x) (vscale3 r (sin x)))
                 (concat1 (cos y) (vscale3 r (sin y)))
  = concat1 (cos (x + y)) (vscale3 r (sin (x + y))).
Proof.
  intros Hr. rewrite cos_plus, sin_plus.
  destruct r as [rx ry rz]. unfold dot3 in Hr; cbn [vx vy vz] in Hr.
  unfold quaternion_mul. unfold_arrays.
  generalize dependent (sin x). generalize dependent (cos x).
  generalize dependent (sin y). generalize dependent (cos y).
  intros cy sy cx sx. apply vec4_ext; nsatz.
Qed.

Lemma propagate_state_moving (a : Vec4) (b ω : Vec3) (δt : R) (r : Vec3) :
  vdiv3 (vsub3 ω b) (norm3 (vsub3 ω b)) = Ret r ->
  propagate_state a b ω δt =
  Ret (quaternion_mul a
         (concat1 (cos (norm3 (vsub3 ω b) * δt / 2))
                  (vscale3 r (sin (norm3 (vsub3 ω b) * δt / 2))))).
Proof.
  intros Hr. unfold propagate_state.
  destruct (Req_dec_T (norm3 (vsub3 ω b)) 0) as [H | H].
  - rewrite H, vdiv3_zero in Hr. discriminate.
  - rewrite Hr. reflexivity.
Qed.

Lemma propagate_state_compose (a : Vec4) (b ω : Vec3) (δt1 δt2 : R) :
  (q1 <- propagate_state a b ω δt1 ;; propagate_state q1 b ω δt2)
  = propagate_state a b ω (δt1 + δt2).
Proof.
  destruct (Req_dec_T (norm3 (vsub3 ω b)) 0) as [H | H].
  - unfold propagate_state.
    destruct (Req_dec_T (norm3 (vsub3 ω b)) 0); [ | contradiction ].
    cbn [bind].
    destruct (Req_dec_T (norm3 (vsub3 ω b)) 0); [ reflexivity | contradiction ].
  - pose proof (vdiv3_nonzero (vsub3 ω b) _ H) as Hr.
    rewrite !(propagate_state_moving _ _ _ _ _ Hr). cbn [bind].
    rewrite (propagate_state_moving _ _ _ _ _ Hr).
    rewrite quaternion_mul_assoc, increment_compose by exact (unit_axis _ _ Hr).
    do 3 f_equal; [ f_equal; field | do 2 f_equal; field ].
Qed.

(** The rotation block of the transition matrix is orthogonal. *)
Lemma rotation_block_orthogonal (v : Vec3) (δt : R) :
  norm3 v <> 0 ->
  matmul3 (Spec.rotation_block_of_unit_hat v δt)
          (transpose3 (Spec.rotation_block_of_unit_hat v δt)) = I3 /\
  matmul3 (transpose3 (Spec.rotation_block_of_unit_hat v δt))
          (Spec.rotation_block_of_unit_hat v δt) = I3.
Proof.
  intros Hn.
  pose proof (unit_axis v _ (vdiv3_nonzero v _ Hn)) as Hu.
  pose proof (sin2_cos2 (norm3 v * δt)) as Hsc. unfold Rsqr in Hsc.
  unfold Spec.rotation_block_of_unit_hat, hat.
  unfold dot3 in Hu; cbn [vx vy vz] in Hu.
  generalize dependent (sin (norm3 v * δt)).
  generalize dependent (cos (norm3 v * δt)).
  generalize dependent (vx v / norm3 v).
  generalize dependent (vy v / norm3 v).
  generalize dependent (vz v / norm3 v).
  intros uz uy ux Hu c s Hsc.
  split; unfold_arrays; apply mat3_ext; nsatz.
Qed.

(** *** Failures *)

Lemma vdiv3_Fail (a : Vec3) (s : R) (e : error) :
  vdiv3 a s = Fail e -> e = NonFinite.
Proof.
  unfold vdiv3. destruct (Req_dec_T s 0); [ | discriminate ].
  intros E; injection E; auto.
Qed.

Lemma vdiv4_Fail (a : Vec4) (s : R) (e : error) :
  vdiv4 a s = Fail e -> e = NonFinite.
Proof.
  unfold vdiv4. destruct (Req_dec_T s 0); [ | discriminate ].
  intros E; injection E; auto.
Qed.

Lemma propagate_covariance_Fail (P0 : Mat6) (ω : Vec3) (δt : R) (e : error) :
  propagate_covariance P0 ω δt = Fail e -> e = NonFinite /\ norm3 ω = 0.
Proof.
  destruct (Req_dec_T (norm3 ω) 0) as [H | H].
  - rewrite propagate_covariance_still by exact H.
    intros E; injection E; auto.
  - rewrite propagate_covariance_Ret by exact H. discriminate.
Qed.

Lemma update_attitude_Fail (q_p : Vec4) (ϕ : Vec3) (e : error) :
  update_attitude q_p ϕ = Fail e -> e = NonFinite.
Proof.
  unfold update_attitude.
  destruct (vdiv3 ϕ (norm3 ϕ)) as [r | e'] eqn:Hr; cbn [bind].
  - apply vdiv4_Fail.
  - intros E. injection E as <-. exact (vdiv3_Fail _ _ _ Hr).
Qed.

Lemma inv_Fail_inv (S : Mat6) (e : error) :
  inv S = Fail e -> e = LinAlgError /\ ~ invertible S.
Proof.
  unfold inv.
  destruct (excluded_middle_informative (invertible S)) as [H | H]; [ discriminate | ].
  intros E; injection E; auto.
Qed.

Lemma kalman_gain_Fail (P_p C : Mat6) (e : error) :
  kalman_gain P_p C = Fail e ->
  e = LinAlgError /\ ~ invertible (innovation_covariance P_p C).
Proof.
  unfold kalman_gain.
  destruct (inv (innovation_covariance P_p C)) as [M | e'] eqn:HM; cbn [bind];
    [ discriminate | ].
  intros E. injection E as <-. exact (inv_Fail_inv _ _ HM).
Qed.

Lemma kalman_gain_Ret_inv (P_p C L : Mat6) :
  kalman_gain P_p C = Ret L ->
  exists M, is_inverse (innovation_covariance P_p C) M /\
            L = matmul6 P_p (matmul6 (transpose6 C) M).
Proof.
  unfold kalman_gain. intros H.
  apply bind_Ret_inv in H as (M & HM & E). apply Ret_inj in E.
  exists M. split; [ exact (inv_Ret_inv _ _ HM) | auto ].
Qed.

End PropagateFacts.

(** ** Quadratic forms *)

Module QuadraticFacts.
Import LinAlg LinAlgFacts Quadratic.

Ltac unfold_forms :=
  unfold margin6, margin3, psd, quad6, quad3, dot6, inverse3, det3, mneg3 in *.

Lemma matvec6_matmul6 (A B : Mat6) (x : Vec6) :
  matvec6 (matmul6 A B) x = matvec6 A (matvec6 B x).
Proof.
  destruct_arrays. unfold_arrays. f_equal; apply vec3_ext; ring.
Qed.

Lemma dot6_adjoint (A : Mat6) (x y : Vec6) :
  dot6 x (matvec6 A y) = dot6 (matvec6 (transpose6 A) x) y.
Proof.
  destruct_arrays. unfold_forms. unfold_arrays. ring.
Qed.

Lemma quad6_madd6 (A B : Mat6) (x : Vec6) :
  quad6 (madd6 A B) x = quad6 A x + quad6 B x.
Proof.
  destruct_arrays. unfold_forms. unfold_arrays. ring.
Qed.

Lemma quad6_congruence (M N : Mat6) (x : Vec6) :
  quad6 (matmul6 M (matmul6 N (transpose6 M))) x
  = quad6 N (matvec6 (transpose6 M) x).
Proof.
  unfold quad6. rewrite !matvec6_matmul6, dot6_adjoint. reflexivity.
Qed.

Lemma quad6_scaled_identity (w : R) (x : Vec6) :
  quad6 (mscale6 I6 w) x = w * dot6 x x.
Proof.
  destruct_arrays. unfold_forms. unfold_arrays. ring.
Qed.

Lemma dot6_nonneg (x : Vec6) : 0 <= dot6 x x.
Proof.
  destruct_arrays. unfold_forms. unfold_arrays. nra.
Qed.

Lemma psd_congruence (M N : Mat6) :
  psd N -> psd (matmul6 M (matmul6 N (transpose6 M))).
Proof. intros HN x. rewrite quad6_congruence. apply HN. Qed.

Lemma psd_scaled_identity (w : R) : 0 <= w -> psd (mscale6 I6 w).
Proof.
  intros Hw x. rewrite quad6_scaled_identity.
  apply Rmult_le_pos; [ exact Hw | apply dot6_nonneg ].
Qed.

Lemma psd_madd6 (A B : Mat6) : psd A -> psd B -> psd (madd6 A B).
Proof.
  intros HA HB x. rewrite quad6_madd6.
  apply Rplus_le_le_0_compat; [ apply HA | apply HB ].
Qed.

Lemma margin6_madd6 (w : R) (A : Mat6) :
  psd A -> margin6 w (madd6 A (mscale6 I6 w)).
Proof.
  intros HA x. rewrite quad6_madd6, quad6_scaled_identity.
  pose proof (HA x). lra.
Qed.

Lemma margin6_psd (k : R) (A : Mat6) : 0 <= k -> margin6 k A -> psd A.
Proof.
  intros Hk HA x. pose proof (HA x). pose proof (dot6_nonneg x). nra.
Qed.

(** *** A 3x3 matrix that is positive definite with a margin *)

Lemma margin3_det (k : R) (A : Mat3) :
  0 < k -> margin3 k A -> 0 < det3 A.
Proof.
  intros Hk HA. destruct A as [a00 a01 a02 a10 a11 a12 a20 a21 a22].
  pose proof (HA (mkVec3 0 1 0)) as H1.
  pose proof (HA (mkVec3 a11 (- a10) 0)) as H2.
  pose proof (HA (mkVec3 (a01 * a12 - a02 * a11)
                         (a02 * a10 - a00 * a12)
                         (a00 * a11 - a01 * a10))) as H3.
  clear HA. unfold_forms. unfold_arrays.
  assert (P1 : 0 < a11) by nra.
  set (mi := a00 * a11 - a01 * a10) in *.
  assert (Pm : 0 < mi).
  { assert (0 <= k * (a10 * a10)) by (apply Rmult_le_pos; nra).
    assert (0 < k * (a11 * a11)) by (apply Rmult_lt_0_compat; nra).
    assert (E : 0 < a11 * mi) by (unfold mi; nra).
    nra. }
  set (v0 := a01 * a12 - a02 * a11) in *.
  set (v1 := a02 * a10 - a00 * a12) in *.
  assert (0 <= k * (v0 * v0)) by (apply Rmult_le_pos; nra).
  assert (0 <= k * (v1 * v1)) by (apply Rmult_le_pos; nra).
  assert (0 < k * (mi * mi)) by (apply Rmult_lt_0_compat; nra).
  assert (E : 0 < mi * (a00 * (a11 * a22 - a12 * a21)
                        - a01 * (a10 * a22 - a12 * a20)
                        + a02 * (a10 * a21 - a11 * a20))).
  { apply Rlt_le_trans with (k * (v0 * v0 + v1 * v1 + mi * mi)); [ lra | ].
    eapply Rle_trans; [ exact H3 | ]. apply Req_le. unfold v0, v1, mi. ring. }
  nra.
Qed.

Lemma inverse3_r (A : Mat3) : det3 A <> 0 -> matmul3 A (inverse3 A) = I3.
Proof.
  intros Hd. destruct A. unfold_forms. unfold_arrays.
  apply mat3_ext; field; exact Hd.
Qed.

Lemma inverse3_l (A : Mat3) : det3 A <> 0 -> matmul3 (inverse3 A) A = I3.
Proof.
  intros Hd. destruct A. unfold_forms. unfold_arrays.
  apply mat3_ext; field; exact Hd.
Qed.

Lemma margin3_invertible (k : R) (A : Mat3) :
  0 < k -> margin3 k A ->
  matmul3 A (inverse3 A) = I3 /\ matmul3 (inverse3 A) A = I3.
Proof.
  intros Hk HA. pose proof (margin3_det k A Hk HA) as Hd.
  split; [ apply inverse3_r | apply inverse3_l ]; lra.
Qed.


(** *** A 6x6 matrix that is positive definite with a margin *)

Lemma matvec3_matmul3 (A B : Mat3) (x : Vec3) :
  matvec3 (matmul3 A B) x = matvec3 A (matvec3 B x).
Proof. array_ring. Qed.

Lemma matvec3_vneg3 (A : Mat3) (x : Vec3) :
  matvec3 A (vneg3 x) = vneg3 (matvec3 A x).
Proof. array_ring. Qed.

Lemma matvec3_msub3 (A B : Mat3) (x : Vec3) :
  matvec3 (msub3 A B) x = vsub3 (matvec3 A x) (matvec3 B x).
Proof. array_ring. Qed.

Lemma madd3_msub3 (M D : Mat3) : madd3 M (msub3 D M) = D.
Proof. array_ring. Qed.

Lemma margin6_ul (k : R) (S : Mat6) : margin6 k S -> margin3 k (ul S).
Proof.
  intros HS x. pose proof (HS (concat x vzeros3)) as H.
  destruct_arrays. unfold_forms. unfold_arrays. nra.
Qed.

(** The Schur complement of the upper-left block keeps the margin. *)
Lemma margin6_schur (k : R) (A B C D Ai : Mat3) :
  0 <= k ->
  margin6 k (block A B C D) ->
  matmul3 A Ai = I3 ->
  margin3 k (msub3 D (matmul3 C (matmul3 Ai B))).
Proof.
  intros Hk HS HA y.
  pose proof (HS (concat (vneg3 (matvec3 (matmul3 Ai B) y)) y)) as H.
  assert (E : matvec3 A (matvec3 (matmul3 Ai B) y) = matvec3 B y)
    by (rewrite <- matvec3_matmul3, <- matmul3_assoc, HA, matmul3_I3_l; reflexivity).
  unfold quad3. rewrite matvec3_msub3, matvec3_matmul3.
  unfold quad6, dot6, matvec6, block in H; cbn [ul ur ll lr top bot] in H.
  rewrite !matvec3_vneg3, E in H.
  generalize dependent (matvec3 (matmul3 Ai B) y). intros t H.
  generalize dependent (matvec3 B y). intros s H.
  generalize dependent (matvec3 D y). intros d H.
  generalize dependent (matvec3 C t). intros c H.
  destruct y, t, s, d, c. unfold_arrays.
  assert (0 <= k * (vx0 * vx0 + vy0 * vy0 + vz0 * vz0))
    by (apply Rmult_le_pos; nra).
  nra.
Qed.

Lemma is_inverse_matmul6 (A A' B B' : Mat6) :
  is_inverse A A' -> is_inverse B B' ->
  is_inverse (matmul6 A B) (matmul6 B' A').
Proof.
  intros [HA1 HA2] [HB1 HB2]. split.
  - rewrite matmul6_assoc, <- (matmul6_assoc B B' A'), HB1, matmul6_I6_l. exact HA1.
  - rewrite matmul6_assoc, <- (matmul6_assoc A' A B), HA2, matmul6_I6_l. exact HB2.
Qed.

Lemma lower_unit_inverse (X : Mat3) :
  is_inverse (block I3 zeros3 X I3) (block I3 zeros3 (mneg3 X) I3).
Proof.
  destruct X. split; unfold_forms; unfold_arrays;
    apply mat6_ext; apply mat3_ext; ring.
Qed.

Lemma upper_unit_inverse (Y : Mat3) :
  is_inverse (block I3 Y zeros3 I3) (block I3 (mneg3 Y) zeros3 I3).
Proof.
  destruct Y. split; unfold_forms; unfold_arrays;
    apply mat6_ext; apply mat3_ext; ring.
Qed.

Lemma diagonal_inverse (A T Ai Ti : Mat3) :
  matmul3 A Ai = I3 -> matmul3 Ai A = I3 ->
  matmul3 T Ti = I3 -> matmul3 Ti T = I3 ->
  is_inverse (block A zeros3 zeros3 T) (block Ai zeros3 zeros3 Ti).
Proof.
  intros H1 H2 H3 H4.
  split; unfold matmul6, I6, block; cbn [ul ur ll lr];
    rewrite !matmul3_zeros3_l, !matmul3_zeros3_r, !madd3_zeros3_l, !madd3_zeros3_r;
    rewrite ?H1, ?H2, ?H3, ?H4; reflexivity.
Qed.

Lemma block_factorization (A B C D Ai : Mat3) :
  matmul3 A Ai = I3 -> matmul3 Ai A = I3 ->
  block A B C D =
  matmul6 (block I3 zeros3 (matmul3 C Ai) I3)
    (matmul6 (block A zeros3 zeros3 (msub3 D (matmul3 C (matmul3 Ai B))))
             (block I3 (matmul3 Ai B) zeros3 I3)).
Proof.
  intros H1 H2. unfold matmul6, block; cbn [ul ur ll lr].
  rewrite !matmul3_zeros3_l, !matmul3_zeros3_r, !matmul3_I3_l, !matmul3_I3_r,
    !madd3_zeros3_l, !madd3_zeros3_r.
  rewrite <- (matmul3_assoc A Ai B), H1, matmul3_I3_l.
  rewrite (matmul3_assoc C Ai A), H2, matmul3_I3_r.
  rewrite (matmul3_assoc C Ai B), madd3_msub3. reflexivity.
Qed.

Lemma margin6_invertible (k : R) (S : Mat6) :
  0 < k -> margin6 k S -> invertible S.
Proof.
  intros Hk HS. destruct S as [A B C D]. fold (block A B C D) in *.
  destruct (margin3_invertible k A Hk (margin6_ul _ _ HS)) as [HA1 HA2].
  pose proof (margin6_schur k A B C D (inverse3 A) (Rlt_le _ _ Hk) HS HA1) as HT.
  destruct (margin3_invertible k _ Hk HT) as [HT1 HT2].
  rewrite (block_factorization A B C D (inverse3 A) HA1 HA2).
  eexists. apply is_inverse_matmul6; [ apply lower_unit_inverse | ].
  apply is_inverse_matmul6; [ | apply upper_unit_inverse ].
  exact (diagonal_inverse _ _ _ _ HA1 HA2 HT1 HT2).
Qed.

End QuadraticFacts.

(** ** The covariance through a cycle *)

Module CovarianceFacts.
Import LinAlg MathUtils Mekf LinAlgFacts RunFacts MekfFacts Quadratic QuadraticFacts.
Import PropagateFacts.

Ltac array_ring6 :=
  intros; destruct_arrays; unfold_arrays; apply mat6_ext; apply mat3_ext; ring.

Lemma matmul6_msub6_l (A B C : Mat6) :
  matmul6 A (msub6 B C) = msub6 (matmul6 A B) (matmul6 A C).
Proof. array_ring6. Qed.

Lemma matmul6_msub6_r (A B C : Mat6) :
  matmul6 (msub6 A B) C = msub6 (matmul6 A C) (matmul6 B C).
Proof. array_ring6. Qed.

Lemma msub6_madd6_cancel (X Y : Mat6) : msub6 (madd6 X Y) Y = X.
Proof. array_ring6. Qed.

Lemma msub6_msub6_cancel (X Y : Mat6) : msub6 X (msub6 X Y) = Y.
Proof. array_ring6. Qed.

Lemma madd6_msub6_cancel (X Y : Mat6) : madd6 (msub6 X Y) Y = X.
Proof. array_ring6. Qed.

(** *** The Joseph form at the gain of [step] *)

Lemma gain_times_innovation_covariance (P_p C L : Mat6) :
  kalman_gain P_p C = Ret L ->
  matmul6 L (innovation_covariance P_p C) = matmul6 P_p (transpose6 C).
Proof.
  intros H. apply kalman_gain_Ret_inv in H as (M & [_ HM] & ->).
  rewrite <- (matmul6_assoc P_p), matmul6_assoc, HM. apply matmul6_I6_r.
Qed.

Lemma residual_times_cross (P_p C L : Mat6) :
  kalman_gain P_p C = Ret L ->
  matmul6 (msub6 I6 (matmul6 L C)) (matmul6 P_p (transpose6 C)) = matmul6 L V.
Proof.
  intros H. pose proof (gain_times_innovation_covariance _ _ _ H) as HS.
  rewrite matmul6_msub6_r, matmul6_I6_l, matmul6_assoc.
  replace (matmul6 C (matmul6 P_p (transpose6 C)))
    with (msub6 (innovation_covariance P_p C) V)
    by (unfold innovation_covariance; apply msub6_madd6_cancel).
  rewrite matmul6_msub6_l, HS. apply msub6_msub6_cancel.
Qed.

Lemma update_covariance_simplified (P_p C L : Mat6) :
  kalman_gain P_p C = Ret L ->
  update_covariance L C P_p = matmul6 (msub6 I6 (matmul6 L C)) P_p.
Proof.
  intros H. unfold update_covariance.
  rewrite transpose6_msub6, transpose6_I6, transpose6_matmul6.
  rewrite (matmul6_msub6_l P_p), matmul6_I6_r, <- (matmul6_assoc P_p).
  rewrite (matmul6_msub6_l (msub6 I6 (matmul6 L C))).
  rewrite <- (matmul6_assoc (msub6 I6 (matmul6 L C))), (residual_times_cross _ _ _ H).
  rewrite (matmul6_assoc L V). apply madd6_msub6_cancel.
Qed.

(** *** Positive semi-definite covariances *)

Lemma psd_W : psd W.
Proof. apply psd_scaled_identity. lra. Qed.

Lemma psd_V : psd V.
Proof. apply psd_scaled_identity. lra. Qed.

Lemma margin6_propagate_covariance (P0 P_p : Mat6) (ω : Vec3) (δt : R) :
  psd P0 -> propagate_covariance P0 ω δt = Ret P_p -> margin6 1e-6 P_p.
Proof.
  intros HP H. apply propagate_covariance_Ret_inv in H as (A & _ & ->).
  apply margin6_madd6, psd_congruence, HP.
Qed.

Lemma margin6_innovation_covariance (P_p C : Mat6) :
  psd P_p -> margin6 1e-6 (innovation_covariance P_p C).
Proof.
  intros HP. apply margin6_madd6, psd_congruence, HP.
Qed.

Lemma psd_update_covariance (L C P_p : Mat6) :
  psd P_p -> psd (update_covariance L C P_p).
Proof.
  intros HP. unfold update_covariance.
  apply psd_madd6; apply psd_congruence; [ exact HP | exact psd_V ].
Qed.

Lemma kalman_gain_returns (P_p C : Mat6) :
  psd P_p -> exists L, kalman_gain P_p C = Ret L.
Proof.
  intros HP.
  destruct (margin6_invertible 1e-6 (innovation_covariance P_p C)) as [M HM];
    [ lra | exact (margin6_innovation_covariance _ _ HP) | ].
  unfold kalman_gain. rewrite (inv_Ret _ _ HM). cbn [bind]. eauto.
Qed.

End CovarianceFacts.

(** ** The cycles of the biased prior for a sun reference of any length *)

Module SunScenarioFacts.
Import LinAlg MathUtils Mekf LinAlgFacts RunFacts MekfFacts Scenario ScenarioFacts.
Import SunScenario.

Lemma Z_of_value (t : R) : Z_of t = concat vzeros3 (mkVec3 0 1 (- t)).
Proof.
  unfold Z_of, sun, innovation, quaternion_to_rotation_matrix, q_id, e_x, e_y.
  unfold_arrays. f_equal; apply vec3_ext; ring.
Qed.

Lemma correction_of_sun (a b g w t : R) :
  w <> 0 -> a + w <> 0 -> 2 * a + w <> 0 ->
  matvec6 (matmul6 (P_p_of a b g) (matmul6 (transpose6 C0) (S_inv_of a w)))
          (concat vzeros3 (mkVec3 0 1 (- t)))
  = concat (mkVec3 (t * (a / (a + w))) 0 0) (mkVec3 (t * (b / (a + w))) 0 0).
Proof.
  intros Hw Haw Haaw.
  unfold C0, sensitivity, hat, e_x, e_y, P_p_of, S_inv_of. unfold_arrays.
  f_equal; apply vec3_ext; field; auto.
Qed.

Lemma correction_sun (δt t : R) :
  correction (L0 δt) (Z_of t) =
  concat (mkVec3 (t * θ0 δt) 0 0) (mkVec3 (t * (- δt / (a0 δt + 1e-6))) 0 0).
Proof.
  pose proof (a0_positive δt).
  unfold correction, L0, P_p0, S_inv0, θ0. rewrite Z_of_value.
  apply correction_of_sun; lra.
Qed.

Lemma step_biased_sun (δt t : R) :
  0 < t -> step biased e_z δt e_x (sun t) e_x e_y = Ret (posterior_of δt t).
Proof.
  intros Ht.
  assert (Hθ : 0 < t * θ0 δt)
    by (apply Rmult_lt_0_compat; [ exact Ht | apply theta0_positive ]).
  apply (step_stages biased e_z δt e_x (sun t) e_x e_y q_id
           (mkVec4 (cos (t * θ0 δt / 2)) (sin (t * θ0 δt / 2)) 0 0)
           (P_p0 δt) (L0 δt)).
  - apply propagate_state_same.
  - apply propagate_covariance_identity.
  - apply kalman_gain0.
  - fold (Z_of t). rewrite correction_sun. cbn [top].
    apply update_attitude_about_x, Hθ.
Qed.

End SunScenarioFacts.

(** ** How a cycle ends *)

Module StepFacts.
Import LinAlg MathUtils Mekf LinAlgFacts RunFacts MekfFacts Quadratic QuadraticFacts.
Import PropagateFacts CovarianceFacts.

Lemma norm4_q_id : norm4 Scenario.q_id = 1.
Proof.
  unfold norm4, dot4, Scenario.q_id; cbn [q0 q1 q2 q3].
  replace (1 * 1 + 0 * 0 + 0 * 0 + 0 * 0) with 1 by ring. apply sqrt_1.
Qed.

Lemma psd_I6 : psd I6.
Proof.
  intros x. destruct_arrays. unfold_forms. unfold_arrays. nra.
Qed.

(** Once the gain is there, the cycle ends as the attitude update does. *)
Lemma step_after_gain (st : State) (ω : Vec3) (δt : R)
    (nr_mag nr_sun br_mag br_sun : Vec3) (q_p : Vec4) (P_p L : Mat6) :
  propagate_state (state_q st) (state_β st) ω δt = Ret q_p ->
  propagate_covariance (state_P st) ω δt = Ret P_p ->
  kalman_gain P_p (sensitivity br_mag br_sun) = Ret L ->
  step st ω δt nr_mag nr_sun br_mag br_sun =
  (q_u <- update_attitude q_p
            (top (correction L (innovation q_p nr_mag nr_sun br_mag br_sun))) ;;
   Ret (mkState q_u
          (vadd3 β (bot (correction L (innovation q_p nr_mag nr_sun br_mag br_sun))))
          (update_covariance L (sensitivity br_mag br_sun) P_p))).
Proof.
  intros Hq HP HL. unfold step.
  rewrite Hq; cbn [bind]. rewrite HP; cbn [bind]. rewrite HL; cbn [bind].
  reflexivity.
Qed.

Lemma update_attitude_zero_angle (q_p : Vec4) (ϕ : Vec3) :
  norm3 ϕ = 0 -> update_attitude q_p ϕ = Fail NonFinite.
Proof.
  intros H. unfold update_attitude. rewrite H, vdiv3_zero. reflexivity.
Qed.

Lemma step_LinAlgError_inv (st : State) (ω : Vec3) (δt : R)
    (nr_mag nr_sun br_mag br_sun : Vec3) :
  step st ω δt nr_mag nr_sun br_mag br_sun = Fail LinAlgError ->
  exists P_p,
    propagate_covariance (state_P st) ω δt = Ret P_p /\
    ~ invertible (innovation_covariance P_p (sensitivity br_mag br_sun)).
Proof.
  destruct (propagate_state_total (state_q st) (state_β st) ω δt) as [q_p Hq].
  destruct (propagate_covariance (state_P st) ω δt) as [P_p | e] eqn:HP.
  - destruct (kalman_gain P_p (sensitivity br_mag br_sun)) as [L | e] eqn:HL.
    + rewrite (step_after_gain _ _ _ _ _ _ _ _ _ _ Hq HP HL).
      destruct (update_attitude q_p _) as [q_u | e] eqn:Hu; cbn [bind];
        [ discriminate | ].
      rewrite (update_attitude_Fail _ _ _ Hu). discriminate.
    + intros _. exists P_p. split; [ reflexivity | ].
      exact (proj2 (kalman_gain_Fail _ _ _ HL)).
  - unfold step. rewrite Hq; cbn [bind]. rewrite HP; cbn [bind].
    rewrite (proj1 (propagate_covariance_Fail _ _ _ _ HP)). discriminate.
Qed.

Lemma step_of_singular (st : State) (ω : Vec3) (δt : R)
    (nr_mag nr_sun br_mag br_sun : Vec3) (P_p : Mat6) :
  propagate_covariance (state_P st) ω δt = Ret P_p ->
  ~ invertible (innovation_covariance P_p (sensitivity br_mag br_sun)) ->
  step st ω δt nr_mag nr_sun br_mag br_sun = Fail LinAlgError.
Proof.
  intros HP HS. unfold step.
  destruct (propagate_state_total (state_q st) (state_β st) ω δt) as [q_p ->].
  cbn [bind]. rewrite HP; cbn [bind].
  unfold kalman_gain. rewrite inv_Fail by exact HS. reflexivity.
Qed.

(** The stages of a cycle from a positive semi-definite covariance and a
    rate that is not zero all return, up to the attitude update. *)
Lemma stages_of_psd (st : State) (ω : Vec3) (δt : R) (br_mag br_sun : Vec3) :
  psd (state_P st) -> norm3 ω <> 0 ->
  exists q_p P_p L,
    propagate_state (state_q st) (state_β st) ω δt = Ret q_p /\
    propagate_covariance (state_P st) ω δt = Ret P_p /\
    kalman_gain P_p (sensitivity br_mag br_sun) = Ret L /\
    psd P_p.
Proof.
  intros HP Hω.
  destruct (propagate_state_total (state_q st) (state_β st) ω δt) as [q_p Hq].
  pose proof (propagate_covariance_Ret (state_P st) ω δt Hω) as Hp.
  assert (Hpsd : psd (Spec.propagated
                        (Spec.transition_of
                           (Spec.rotation_block_of_unit_hat (vneg3 ω) δt) δt)
                        (state_P st) W)).
  { apply (margin6_psd 1e-6); [ lra | ].
    exact (margin6_propagate_covariance _ _ _ _ HP Hp). }
  destruct (kalman_gain_returns _ (sensitivity br_mag br_sun) Hpsd) as [L HL].
  eauto 10.
Qed.

End StepFacts.

(** ** Further properties of [propagate_state] and [step] *)

Module MekfExtra.
Import LinAlg MathUtils Mekf LinAlgFacts RunFacts MekfFacts Scenario ScenarioFacts.
Import Quadratic QuadraticFacts PropagateFacts CovarianceFacts StepFacts.
Import SunScenario SunScenarioFacts.

(** X1: [propagate_state] always returns, and the attitude it returns has
    the norm of the attitude it was given. *)
Theorem propagate_state_keeps_norm (a : Vec4) (b ω : Vec3) (δt : R) :
  exists q_p, propagate_state a b ω δt = Ret q_p /\ norm4 q_p = norm4 a.
Proof.
  destruct (propagate_state_total a b ω δt) as [q_p H].
  exists q_p. split; [ exact H | exact (propagate_state_norm _ _ _ _ _ H) ].
Qed.

(** X2: propagating over [δt1] and then over [δt2], with the same bias and
    rate, is propagating over [δt1 + δt2]. *)
Theorem propagate_state_additive (a : Vec4) (b ω : Vec3) (δt1 δt2 : R) :
  (q1 <- propagate_state a b ω δt1 ;; propagate_state q1 b ω δt2)
  = propagate_state a b ω (δt1 + δt2).
Proof. apply propagate_state_compose. Qed.

(** X3: for a rate that is not zero, the transition matrix of lines 69 to
    76 has an orthogonal upper-left block [R], [-δt·I₃] to its right, and
    [[0, I₃]] below. *)
Theorem transition_rotation_orthogonal (ω : Vec3) (δt : R) :
  norm3 ω <> 0 ->
  exists A,
    transition ω δt = Ret A /\
    matmul3 (ul A) (transpose3 (ul A)) = I3 /\
    matmul3 (transpose3 (ul A)) (ul A) = I3 /\
    ur A = mscale3 I3 (- δt) /\ ll A = zeros3 /\ lr A = I3.
Proof.
  intros H. eexists. split; [ exact (transition_Ret ω δt H) | ].
  cbn [ul ur ll lr Spec.transition_of block].
  destruct (rotation_block_orthogonal (vneg3 ω) δt) as [H1 H2];
    [ rewrite norm3_vneg3; exact H | ].
  auto.
Qed.

Lemma transition_rotation_orthogonal_witness :
  exists A,
    transition e_z 1 = Ret A /\
    matmul3 (ul A) (transpose3 (ul A)) = I3 /\
    matmul3 (transpose3 (ul A)) (ul A) = I3 /\
    ur A = mscale3 I3 (- 1) /\ ll A = zeros3 /\ lr A = I3.
Proof.
  apply (transition_rotation_orthogonal e_z 1). rewrite norm3_e_z. lra.
Defined.

(** X4: with no time elapsed and a rate that is not zero, the covariance
    prediction of lines 69 to 77 adds [W] to the covariance and changes
    nothing else. *)
Theorem propagate_covariance_adds_noise (P0 : Mat6) (ω : Vec3) :
  norm3 ω <> 0 -> propagate_covariance P0 ω 0 = Ret (madd6 P0 W).
Proof. apply propagate_covariance_no_time. Qed.

Lemma propagate_covariance_adds_noise_witness :
  propagate_covariance I6 e_z 0 = Ret (madd6 I6 W).
Proof.
  apply (propagate_covariance_adds_noise I6 e_z). rewrite norm3_e_z. lra.
Defined.

(** X5: with a rate of zero [step] divides by zero on line 71, whatever
    the prior and the measurements: the state it returns is not finite. *)
Theorem step_zero_rate_not_finite (st : State) (δt : R)
    (nr_mag nr_sun br_mag br_sun : Vec3) :
  step st vzeros3 δt nr_mag nr_sun br_mag br_sun = Fail NonFinite.
Proof. apply step_still, norm3_vzeros3. Qed.

(** X6: [step] fails with the error of a singular matrix exactly when the
    covariance prediction returns and the innovation covariance
    [S = C·(P_p·Cᵀ) + V] of line 88 has no inverse. *)
Theorem step_raises_iff_singular (st : State) (ω : Vec3) (δt : R)
    (nr_mag nr_sun br_mag br_sun : Vec3) :
  step st ω δt nr_mag nr_sun br_mag br_sun = Fail LinAlgError <->
  exists P_p,
    propagate_covariance (state_P st) ω δt = Ret P_p /\
    ~ invertible (innovation_covariance P_p (sensitivity br_mag br_sun)).
Proof.
  split.
  - apply step_LinAlgError_inv.
  - intros (P_p & HP & HS). exact (step_of_singular _ _ _ _ _ _ _ _ HP HS).
Qed.

(** X7: from a positive semi-definite prior covariance, measurements that
    agree exactly with the prediction (an innovation of zero) make [step]
    divide by a rotation angle of zero on line 98: the state it returns is
    not finite. *)
Theorem step_zero_innovation_not_finite (st : State) (ω : Vec3) (δt : R)
    (nr_mag nr_sun br_mag br_sun : Vec3) (q_p : Vec4) :
  psd (state_P st) ->
  propagate_state (state_q st) (state_β st) ω δt = Ret q_p ->
  innovation q_p nr_mag nr_sun br_mag br_sun = vzeros6 ->
  step st ω δt nr_mag nr_sun br_mag br_sun = Fail NonFinite.
Proof.
  intros HP Hq HZ.
  destruct (Req_dec_T (norm3 ω) 0) as [Hω | Hω]; [ apply step_still, Hω | ].
  destruct (stages_of_psd st ω δt br_mag br_sun HP Hω)
    as (q_p' & P_p & L & Hq' & Hp & HL & _).
  rewrite Hq in Hq'. apply Ret_inj in Hq'. subst q_p'.
  rewrite (step_after_gain _ _ _ _ _ _ _ _ _ _ Hq Hp HL), HZ.
  unfold correction. rewrite matvec6_vzeros6. cbn [top vzeros6].
  rewrite update_attitude_no_rotation. reflexivity.
Qed.

Lemma step_zero_innovation_not_finite_witness :
  step rest e_z 0 e_x e_y e_x e_y = Fail NonFinite.
Proof.
  apply (step_zero_innovation_not_finite rest e_z 0 e_x e_y e_x e_y q_id).
  - exact psd_I6.
  - apply propagate_state_no_time.
  - exact innovation_consistent.
Defined.

(** X8: the covariance [step] returns depends on the prior covariance, the
    rate, the time step and the two measured body vectors only: not on the
    prior attitude, the prior bias or the two reference vectors. *)
Theorem step_covariance_ignores_attitude (st1 st2 st1' st2' : State) (ω : Vec3)
    (δt : R) (nr_mag1 nr_sun1 nr_mag2 nr_sun2 br_mag br_sun : Vec3) :
  state_P st1 = state_P st2 ->
  step st1 ω δt nr_mag1 nr_sun1 br_mag br_sun = Ret st1' ->
  step st2 ω δt nr_mag2 nr_sun2 br_mag br_sun = Ret st2' ->
  state_P st1' = state_P st2'.
Proof.
  intros HP H1 H2.
  apply step_Ret_inv in H1 as (q1 & P1 & L1 & u1 & _ & Hp1 & HL1 & _ & ->).
  apply step_Ret_inv in H2 as (q2 & P2 & L2 & u2 & _ & Hp2 & HL2 & _ & ->).
  cbn [state_P]. rewrite HP, Hp2 in Hp1. apply Ret_inj in Hp1. subst P2.
  rewrite HL2 in HL1. apply Ret_inj in HL1. subst L2. reflexivity.
Qed.

Lemma step_covariance_ignores_attitude_witness :
  state_P (posterior_of 1 1) = state_P (posterior_of 1 2).
Proof.
  apply (step_covariance_ignores_attitude biased biased
           (posterior_of 1 1) (posterior_of 1 2) e_z 1
           e_x (sun 1) e_x (sun 2) e_x e_y).
  - reflexivity.
  - apply step_biased_sun. lra.
  - apply step_biased_sun. lra.
Defined.

(** X9: at the gain of line 91, the Joseph form of lines 102 to 106 is
    [(I₆ - L·C)·P_p]: the covariance [step] returns equals the simplified
    form in exact arithmetic. *)
Theorem step_covariance_simplified (st st' : State) (ω : Vec3) (δt : R)
    (nr_mag nr_sun br_mag br_sun : Vec3) :
  step st ω δt nr_mag nr_sun br_mag br_sun = Ret st' ->
  exists P_p L,
    propagate_covariance (state_P st) ω δt = Ret P_p /\
    kalman_gain P_p (sensitivity br_mag br_sun) = Ret L /\
    state_P st' =
    matmul6 (msub6 I6 (matmul6 L (sensitivity br_mag br_sun))) P_p.
Proof.
  intros H. apply step_Ret_inv in H as (q_p & P_p & L & q_u & _ & Hp & HL & _ & ->).
  exists P_p, L. cbn [state_P].
  rewrite (update_covariance_simplified _ _ _ HL). auto.
Qed.

Lemma step_covariance_simplified_witness :
  exists P_p L,
    propagate_covariance (state_P biased) e_z 1 = Ret P_p /\
    kalman_gain P_p (sensitivity e_x e_y) = Ret L /\
    state_P (posterior 1) =
    matmul6 (msub6 I6 (matmul6 L (sensitivity e_x e_y))) P_p.
Proof.
  exact (step_covariance_simplified biased (posterior 1) e_z 1 e_x e_z e_x e_y
           (step_biased 1)).
Defined.

(** X10: the covariance of a state returned by [step] from a prior with a
    positive semi-definite covariance is positive semi-definite. *)
Theorem step_keeps_psd (st st' : State) (ω : Vec3) (δt : R)
    (nr_mag nr_sun br_mag br_sun : Vec3) :
  psd (state_P st) ->
  step st ω δt nr_mag nr_sun br_mag br_sun = Ret st' ->
  psd (state_P st').
Proof.
  intros HP H. apply step_Ret_inv in H as (q_p & P_p & L & q_u & _ & Hp & _ & _ & ->).
  cbn [state_P]. apply psd_update_covariance.
  apply (margin6_psd 1e-6); [ lra | ].
  exact (margin6_propagate_covariance _ _ _ _ HP Hp).
Qed.

Lemma step_keeps_psd_witness : psd (state_P (posterior 1)).
Proof.
  apply (step_keeps_psd biased (posterior 1) e_z 1 e_x e_z e_x e_y).
  - exact psd_I6.
  - exact (step_biased 1).
Defined.

(** X11: from a prior with a positive semi-definite covariance [step]
    never fails with the error of a singular matrix: the innovation
    covariance of line 88 is positive definite, hence invertible. *)
Theorem step_psd_never_singular (st : State) (ω : Vec3) (δt : R)
    (nr_mag nr_sun br_mag br_sun : Vec3) :
  psd (state_P st) ->
  step st ω δt nr_mag nr_sun br_mag br_sun <> Fail LinAlgError.
Proof.
  intros HP H. apply step_LinAlgError_inv in H as (P_p & Hp & HS).
  apply HS. apply (margin6_invertible 1e-6); [ lra | ].
  apply margin6_innovation_covariance.
  apply (margin6_psd 1e-6); [ lra | ].
  exact (margin6_propagate_covariance _ _ _ _ HP Hp).
Qed.

Lemma step_psd_never_singular_witness :
  step rest e_z 1 e_x e_y vzeros3 vzeros3 <> Fail LinAlgError.
Proof.
  apply (step_psd_never_singular rest e_z 1 e_x e_y vzeros3 vzeros3).
  exact psd_I6.
Defined.

(** X12: from a prior with a positive semi-definite covariance and an
    attitude that is not the zero array, and with a rate that is not zero,
    every stage of [step] up to the correction returns, and [step] returns
    a state exactly when the rotation part of the correction is not
    zero. *)
Theorem step_returns_iff_rotation (st : State) (ω : Vec3) (δt : R)
    (nr_mag nr_sun br_mag br_sun : Vec3) :
  psd (state_P st) ->
  norm4 (state_q st) <> 0 ->
  norm3 ω <> 0 ->
  exists q_p P_p L,
    propagate_state (state_q st) (state_β st) ω δt = Ret q_p /\
    propagate_covariance (state_P st) ω δt = Ret P_p /\
    kalman_gain P_p (sensitivity br_mag br_sun) = Ret L /\
    ((exists st', step st ω δt nr_mag nr_sun br_mag br_sun = Ret st') <->
     norm3 (top (correction L (innovation q_p nr_mag nr_sun br_mag br_sun))) <> 0).
Proof.
  intros HP Hq Hω.
  destruct (stages_of_psd st ω δt br_mag br_sun HP Hω)
    as (q_p & P_p & L & Hqp & Hp & HL & _).
  exists q_p, P_p, L. repeat split; auto.
  - intros [st' H] Hϕ.
    rewrite (step_after_gain _ _ _ _ _ _ _ _ _ _ Hqp Hp HL) in H.
    rewrite (update_attitude_zero_angle _ _ Hϕ) in H. discriminate.
  - intros Hϕ.
    destruct (update_attitude_Ret q_p _ Hϕ) as [q_u Hu].
    + rewrite (propagate_state_norm _ _ _ _ _ Hqp). exact Hq.
    + eexists. exact (step_stages _ _ _ _ _ _ _ _ _ _ _ Hqp Hp HL Hu).
Qed.

Lemma step_returns_iff_rotation_witness :
  exists q_p P_p L,
    propagate_state (state_q biased) (state_β biased) e_z 1 = Ret q_p /\
    propagate_covariance (state_P biased) e_z 1 = Ret P_p /\
    kalman_gain P_p (sensitivity e_x e_y) = Ret L /\
    ((exists st', step biased e_z 1 e_x e_z e_x e_y = Ret st') <->
     norm3 (top (correction L (innovation q_p e_x e_z e_x e_y))) <> 0).
Proof.
  apply (step_returns_iff_rotation biased e_z 1 e_x e_z e_x e_y).
  - exact psd_I6.
  - cbn [state_q biased]. rewrite norm4_q_id. lra.
  - rewrite norm3_e_z. lra.
Defined.

(** X13: with both measured body vectors zero the gain and the correction
    are zero, and [step] divides by a rotation angle of zero on line 98,
    whatever the prior, the rate and the reference vectors: the state it
    returns is not finite. *)
Theorem step_zero_body_vectors_not_finite (st : State) (ω : Vec3) (δt : R)
    (nr_mag nr_sun : Vec3) :
  step st ω δt nr_mag nr_sun vzeros3 vzeros3 = Fail NonFinite.
Proof. apply step_unobservable. Qed.

(** X14: the covariance predicted on line 77 from a symmetric, positive
    semi-definite covariance is symmetric and positive definite:
    [xᵀ·P_p·x >= 1e-6·‖x‖²]. *)
Theorem propagate_covariance_positive_definite (P0 P_p : Mat6) (ω : Vec3) (δt : R) :
  symmetric P0 -> psd P0 ->
  propagate_covariance P0 ω δt = Ret P_p ->
  symmetric P_p /\ margin6 1e-6 P_p.
Proof.
  intros Hs Hp H. split.
  - exact (symmetric_propagate_covariance _ _ _ _ Hs H).
  - exact (margin6_propagate_covariance _ _ _ _ Hp H).
Qed.

Lemma propagate_covariance_positive_definite_witness :
  symmetric (P_p0 1) /\ margin6 1e-6 (P_p0 1).
Proof.
  apply (propagate_covariance_positive_definite I6 (P_p0 1) e_z 1).
  - reflexivity.
  - exact psd_I6.
  - apply propagate_covariance_identity.
Defined.

(** X15: propagating over [δt] and then over [- δt], with the same bias and
    rate, gives the attitude back. *)
Theorem propagate_state_round_trip (a : Vec4) (b ω : Vec3) (δt : R) :
  (q1 <- propagate_state a b ω δt ;; propagate_state q1 b ω (- δt)) = Ret a.
Proof.
  rewrite propagate_state_compose, Rplus_opp_r. apply propagate_state_no_time.
Qed.

(** X16: the gain of line 91 solves [L·S = P_p·Cᵀ] for the innovation
    covariance [S] of line 88. *)
Theorem kalman_gain_equation (P_p C L : Mat6) :
  kalman_gain P_p C = Ret L ->
  matmul6 L (innovation_covariance P_p C) = matmul6 P_p (transpose6 C).
Proof. apply gain_times_innovation_covariance. Qed.

Lemma kalman_gain_equation_witness :
  matmul6 (L0 1) (innovation_covariance (P_p0 1) C0)
  = matmul6 (P_p0 1) (transpose6 C0).
Proof.
  exact (kalman_gain_equation (P_p0 1) C0 (L0 1) (kalman_gain0 1)).
Defined.

End MekfExtra.
